(** * Real-time layer of the CognEdge Teams back end

    A shallow embedding of the socket.io server of
    [services/UserService.js]: the presence registry [onlineUsers], the
    meeting session store [meetingParticipants], and the event handlers of
    the namespaces [/], [/signaling], [/tasks], [/docs],
    [/video-conference] and [/chat], followed by the properties of the
    specification that concern them. *)

From Stdlib Require Import ZArith String Ascii List Bool Lia.
From stdpp Require Import base decidable option list strings pretty.

Set Warnings "-register-all".
Local Open Scope string_scope.
Local Open Scope list_scope.

(** ** JavaScript values

    Event payloads, property values and room keys.  Numbers are the
    integer-valued ones; an absent property reads as [VUndef]. *)

Inductive value : Type :=
| VUndef
| VNull
| VBool (b : bool)
| VNum (n : Z)
| VStr (s : string)
| VArr (xs : list value)
| VObj (fs : list (string * value)).

(** Structural equality.  It is JavaScript's SameValueZero on [undefined],
    [null], booleans, numbers and strings, the values identifiers arrive
    as; JavaScript compares arrays and objects used as keys by reference. *)
Fixpoint value_eq_dec (x y : value) {struct x} : {x = y} + {x <> y}.
Proof.
  decide equality.
  - apply Bool.bool_dec.
  - apply Z.eq_dec.
  - apply String.string_dec.
  - apply (List.list_eq_dec value_eq_dec).
  - apply List.list_eq_dec. decide equality. apply String.string_dec.
Defined.

#[global] Instance value_eqdec : EqDecision value := value_eq_dec.

(** [`${v}`]: the string a template literal gives for [v]. *)
Fixpoint to_str (v : value) : string :=
  match v with
  | VUndef => "undefined"
  | VNull => "null"
  | VBool true => "true"
  | VBool false => "false"
  | VNum n => pretty n
  | VStr s => s
  | VArr xs =>
      (fix join (l : list value) : string :=
         match l with
         | [] => ""
         | x :: rest =>
             match x with VUndef | VNull => "" | _ => to_str x end
             +:+ match rest with [] => "" | _ => "," +:+ join rest end
         end) xs
  | VObj _ => "[object Object]"
  end.

(** *** Objects

    An object is the list of its own properties in insertion order, each
    name at most once. *)

Abbreviation props := (list (string * value)).

Fixpoint get_prop (k : string) (fs : props) : value :=
  match fs with
  | [] => VUndef
  | (k', v) :: fs' => if decide (k = k') then v else get_prop k fs'
  end.

(** Assignment of one property: an existing name keeps its place. *)
Fixpoint set_prop (k : string) (v : value) (fs : props) : props :=
  match fs with
  | [] => [(k, v)]
  | (k', v') :: fs' =>
      if decide (k = k') then (k, v) :: fs' else (k', v') :: set_prop k v fs'
  end.

(** An object literal [{ k1: v1, ...spread, kn: vn }], with the spread
    properties already laid out in place: later entries overwrite. *)
Definition object (entries : props) : value :=
  VObj (foldl (fun acc kv => set_prop kv.1 kv.2 acc) [] entries).

(** The indexed properties of a string or an array. *)
Fixpoint indexed (i : nat) (xs : list value) : props :=
  match xs with
  | [] => []
  | x :: xs' => (pretty i, x) :: indexed (S i) xs'
  end.

Fixpoint chars (s : string) : list value :=
  match s with
  | EmptyString => []
  | String c s' => VStr (String c EmptyString) :: chars s'
  end.

(** The own enumerable properties of a value, as object spread and rest
    patterns see them. *)
Definition own_props (data : value) : props :=
  match data with
  | VObj fs => fs
  | VArr xs => indexed 0 xs
  | VStr s => indexed 0 (chars s)
  | _ => []
  end.

(** [data.k].  None of the names the handlers read is defined on strings,
    arrays, numbers or booleans, so there the read gives [undefined]; on
    [null] and [undefined] the read throws, see [destructure]. *)
Definition prop (k : string) (data : value) : value :=
  match data with
  | VObj fs => get_prop k fs
  | _ => VUndef
  end.

(** The rest object of [const { k1, .., kn, ...rest } = data]. *)
Definition rest_props (taken : list string) (data : value) : value :=
  VObj (filter (fun kv => kv.1 ∉ taken) (own_props data)).

Definition nullish (data : value) : bool :=
  match data with
  | VUndef | VNull => true
  | _ => false
  end.

(** ** [Map]

    A JavaScript [Map] keeps its entries in insertion order; [set] on an
    existing key keeps the entry's place. *)

Module JsMap.
Section Ops.
Context {K V : Type} `{EqDecision K}.

Fixpoint get (k : K) (m : list (K * V)) : option V :=
  match m with
  | [] => None
  | (k', v) :: m' => if decide (k = k') then Some v else get k m'
  end.

Definition has (k : K) (m : list (K * V)) : bool :=
  match get k m with Some _ => true | None => false end.

Fixpoint set (k : K) (v : V) (m : list (K * V)) : list (K * V) :=
  match m with
  | [] => [(k, v)]
  | (k', v') :: m' =>
      if decide (k = k') then (k, v) :: m' else (k', v') :: set k v m'
  end.

Fixpoint delete (k : K) (m : list (K * V)) : list (K * V) :=
  match m with
  | [] => []
  | (k', v') :: m' =>
      if decide (k = k') then m' else (k', v') :: delete k m'
  end.

Definition keys (m : list (K * V)) : list K := m.*1.
Definition values (m : list (K * V)) : list V := m.*2.
Definition size (m : list (K * V)) : nat := length m.
End Ops.
End JsMap.

(** ** Connections

    [socket.user] is the principal the authentication middleware attached
    (its [id] and [email] are strings, [user_metadata.full_name] may be
    missing); [socket.nsp] the namespace the connection belongs to;
    [socket.id] the identifier socket.io generated for it. *)

Inductive Namespace : Type :=
| Main | Signaling | Tasks | Docs | VideoConference | Chat.

#[global] Instance Namespace_eqdec : EqDecision Namespace.
Proof. solve_decision. Defined.

Record User : Type := {
  uid : string;
  email : string;
  full_name : option string   (* user_metadata?.full_name *)
}.

Record Socket : Type := {
  nsp : Namespace;
  sid : string;
  user : User
}.

(** [email.split('@')[0]] *)
Fixpoint before_at (s : string) : string :=
  match s with
  | EmptyString => EmptyString
  | String c s' =>
      if Ascii.eqb c "@"%char then EmptyString else String c (before_at s')
  end.

(** The left operand of [full_name || ...] when it is truthy. *)
Definition truthy_name (u : User) : option string :=
  match full_name u with
  | Some n => if decide (n = "") then None else Some n
  | None => None
  end.

(** [user_metadata?.full_name || email.split('@')[0]] *)
Definition display_name (u : User) : string :=
  default (before_at (email u)) (truthy_name u).

(** [user_metadata?.full_name || email] *)
Definition name_or_email (u : User) : string :=
  default (email u) (truthy_name u).

(** ** Server state *)

Record Presence : Type := {
  p_id : string;
  p_email : string;
  p_socketId : string;
  p_connectedAt : Z
}.

Record Participant : Type := {
  id : string;
  user_id : string;
  user_name : string;
  user_email : string;
  peer_id : value
}.

(** What socket.io keeps for one namespace: the connected sockets and the
    room memberships, a set of (room, socket id). *)
Record Adapter : Type := {
  conns : list string;
  rooms : list (value * string)
}.

Record Server : Type := {
  onlineUsers : list (string * Presence);
  meetingParticipants : list (value * list (string * Participant));
  main_nsp : Adapter;
  signaling_nsp : Adapter;
  tasks_nsp : Adapter;
  docs_nsp : Adapter;
  video_nsp : Adapter;
  chat_nsp : Adapter
}.

Definition no_adapter : Adapter := {| conns := []; rooms := [] |}.

Definition initial : Server :=
  {| onlineUsers := []; meetingParticipants := [];
     main_nsp := no_adapter; signaling_nsp := no_adapter;
     tasks_nsp := no_adapter; docs_nsp := no_adapter;
     video_nsp := no_adapter; chat_nsp := no_adapter |}.

Definition adapter (ns : Namespace) (st : Server) : Adapter :=
  match ns with
  | Main => main_nsp st
  | Signaling => signaling_nsp st
  | Tasks => tasks_nsp st
  | Docs => docs_nsp st
  | VideoConference => video_nsp st
  | Chat => chat_nsp st
  end.

Definition with_adapter (ns : Namespace) (a : Adapter) (st : Server) : Server :=
  let mk m s t d v c :=
    {| onlineUsers := onlineUsers st;
       meetingParticipants := meetingParticipants st;
       main_nsp := m; signaling_nsp := s; tasks_nsp := t;
       docs_nsp := d; video_nsp := v; chat_nsp := c |} in
  match ns with
  | Main => mk a (signaling_nsp st) (tasks_nsp st) (docs_nsp st) (video_nsp st) (chat_nsp st)
  | Signaling => mk (main_nsp st) a (tasks_nsp st) (docs_nsp st) (video_nsp st) (chat_nsp st)
  | Tasks => mk (main_nsp st) (signaling_nsp st) a (docs_nsp st) (video_nsp st) (chat_nsp st)
  | Docs => mk (main_nsp st) (signaling_nsp st) (tasks_nsp st) a (video_nsp st) (chat_nsp st)
  | VideoConference => mk (main_nsp st) (signaling_nsp st) (tasks_nsp st) (docs_nsp st) a (chat_nsp st)
  | Chat => mk (main_nsp st) (signaling_nsp st) (tasks_nsp st) (docs_nsp st) (video_nsp st) a
  end.

Definition with_onlineUsers (m : list (string * Presence)) (st : Server) : Server :=
  {| onlineUsers := m;
     meetingParticipants := meetingParticipants st;
     main_nsp := main_nsp st; signaling_nsp := signaling_nsp st;
     tasks_nsp := tasks_nsp st; docs_nsp := docs_nsp st;
     video_nsp := video_nsp st; chat_nsp := chat_nsp st |}.

Definition with_meetingParticipants
    (m : list (value * list (string * Participant))) (st : Server) : Server :=
  {| onlineUsers := onlineUsers st;
     meetingParticipants := m;
     main_nsp := main_nsp st; signaling_nsp := signaling_nsp st;
     tasks_nsp := tasks_nsp st; docs_nsp := docs_nsp st;
     video_nsp := video_nsp st; chat_nsp := chat_nsp st |}.

(** ** Outbound events

    One [Emission] per call of [emit]: which form of [emit] was called,
    the event, its payload, and the connections it was delivered to at
    that moment. *)

Inductive Target : Type :=
| ToSelf                   (* socket.emit *)
| ToRoom (room : value)    (* socket.to(room).emit *)
| Broadcast.               (* socket.broadcast.emit *)

#[global] Instance Target_eqdec : EqDecision Target.
Proof. solve_decision. Defined.

Record Emission : Type := {
  target : Target;
  event : string;
  payload : value;
  recipients : list string
}.

(** ** Handler monad: server state, emitted events, thrown errors *)

Inductive result (A : Type) : Type :=
| Ok (a : A)
| Throw (err : string).
Arguments Ok {A} a.
Arguments Throw {A} err.

Definition M (A : Type) : Type := Server -> result (A * Server * list Emission).

#[global] Instance M_ret : MRet M := fun A a st => Ok (a, st, []).

#[global] Instance M_bind : MBind M := fun A B f m st =>
  match m st with
  | Ok (a, st1, out1) =>
      match f a st1 with
      | Ok (b, st2, out2) => Ok (b, st2, out1 ++ out2)
      | Throw e => Throw e
      end
  | Throw e => Throw e
  end.

Definition throw {A : Type} (e : string) : M A := fun _ => Throw e.
Definition gets {A : Type} (f : Server -> A) : M A := fun st => Ok (f st, st, []).
Definition modify (f : Server -> Server) : M unit := fun st => Ok (tt, f st, []).
Definition tell (e : Emission) : M unit := fun st => Ok (tt, st, [e]).

(** The outcome of a handler: the new state and what was emitted. *)
Definition run (m : M unit) (st : Server) : result (Server * list Emission) :=
  match m st with
  | Ok (_, st', out) => Ok (st', out)
  | Throw e => Throw e
  end.

(** [for (const x of xs) body(x)] *)
Fixpoint for_each {A : Type} (xs : list A) (body : A -> M unit) : M unit :=
  match xs with
  | [] => mret tt
  | x :: xs' => body x ;; for_each xs' body
  end.

(** Reading a property of, or destructuring, [null] or [undefined] throws
    a TypeError. *)
Definition destructure (data : value) : M unit :=
  if nullish data then throw "TypeError" else mret tt.

(** ** socket.io primitives

    The behaviour of the library calls the handlers make, for the default
    in-memory adapter. *)

(** [join] and [to] take one room or an array of rooms. *)
Definition room_list (room : value) : list value :=
  match room with
  | VArr rs => rs
  | r => [r]
  end.

(** Whether an event sent by [sender] through target [t] is delivered to
    connection [r]: [emit] answers the sender alone; [to(room)] reaches
    the members of the room(s) except the sender, and every other
    connection when the set of rooms is empty; [broadcast] reaches every
    connection of the namespace except the sender. *)
Definition reaches (a : Adapter) (sender : string) (t : Target) (r : string) : Prop :=
  match t with
  | ToSelf => r = sender
  | ToRoom room =>
      r <> sender /\
      (room_list room = [] \/ Exists (fun k => (k, r) ∈ rooms a) (room_list room))
  | Broadcast => r <> sender
  end.

#[global] Instance reaches_dec a sender t r : Decision (reaches a sender t r).
Proof. destruct t; simpl; apply _. Defined.

Definition audience (a : Adapter) (sender : string) (t : Target) : list string :=
  match t with
  | ToSelf => [sender]
  | _ => filter (reaches a sender t) (conns a)
  end.

Definition add_member (room : value) (s : string)
    (ms : list (value * string)) : list (value * string) :=
  if decide ((room, s) ∈ ms) then ms else ms ++ [(room, s)].

Definition on_adapter (ns : Namespace) (f : Adapter -> Adapter) : M unit :=
  modify (fun st => with_adapter ns (f (adapter ns st)) st).

(** [socket.join(room)] *)
Definition socket_join (socket : Socket) (room : value) : M unit :=
  on_adapter (nsp socket) (fun a =>
    {| conns := conns a;
       rooms := foldl (fun ms r => add_member r (sid socket) ms)
                      (rooms a) (room_list room) |}).

(** [socket.leave(room)] *)
Definition socket_leave (socket : Socket) (room : value) : M unit :=
  on_adapter (nsp socket) (fun a =>
    {| conns := conns a;
       rooms := filter (fun m => m <> (room, sid socket)) (rooms a) |}).

Definition emit_via (t : Target) (socket : Socket) (ev : string) (data : value) : M unit :=
  a ← gets (adapter (nsp socket));
  tell {| target := t; event := ev; payload := data;
          recipients := audience a (sid socket) t |}.

(** [socket.emit(ev, data)] *)
Definition socket_emit : Socket -> string -> value -> M unit := emit_via ToSelf.

(** [socket.to(room).emit(ev, data)] *)
Definition socket_to (socket : Socket) (room : value) : string -> value -> M unit :=
  emit_via (ToRoom room) socket.

(** [socket.broadcast.emit(ev, data)] *)
Definition socket_broadcast : Socket -> string -> value -> M unit := emit_via Broadcast.

(** A new connection enters its namespace and the room named by its own
    id, before the ['connection'] handlers run. *)
Definition attach (socket : Socket) : M unit :=
  on_adapter (nsp socket) (fun a =>
    {| conns := if decide (sid socket ∈ conns a) then conns a
                else conns a ++ [sid socket];
       rooms := add_member (VStr (sid socket)) (sid socket) (rooms a) |}).

(** A closing connection has left all its rooms and its namespace when
    the ['disconnect'] handlers run. *)
Definition detach (socket : Socket) : M unit :=
  on_adapter (nsp socket) (fun a =>
    {| conns := filter (fun s => s <> sid socket) (conns a);
       rooms := filter (fun m => m.2 <> sid socket) (rooms a) |}).

(** [`${prefix}${v}`] as a room key *)
Definition tpl (prefix : string) (v : value) : value := VStr (prefix +:+ to_str v).

(** ** Main namespace: presence (first ['connection'] registration) *)

Definition presence_of (socket : Socket) (now : Z) : Presence :=
  {| p_id := uid (user socket);
     p_email := email (user socket);
     p_socketId := sid socket;
     p_connectedAt := now |}.

Definition main_connection_presence (socket : Socket) (now : Z) : M unit :=
  modify (fun st =>
    with_onlineUsers
      (JsMap.set (uid (user socket)) (presence_of socket now) (onlineUsers st)) st) ;;
  socket_broadcast socket "user-online"
    (object [("userId", VStr (uid (user socket)));
             ("userEmail", VStr (email (user socket)))]) ;;
  users ← gets onlineUsers;
  socket_emit socket "online-users-list"
    (object [("users",
       VArr ((fun u => object [("id", VStr (p_id u)); ("email", VStr (p_email u))])
             <$> JsMap.values users))]).

(** [redis] is [null]: nothing happens. *)
Definition on_join_presence (socket : Socket) (data : value) : M unit :=
  mret tt.

Definition main_disconnect_presence (socket : Socket) : M unit :=
  modify (fun st =>
    with_onlineUsers (JsMap.delete (uid (user socket)) (onlineUsers st)) st) ;;
  socket_broadcast socket "user-offline"
    (object [("userId", VStr (uid (user socket)));
             ("userEmail", VStr (email (user socket)))]).

(** ** Main namespace: conversations (second ['connection'] registration) *)

Definition main_connection_chat (socket : Socket) (now : Z) : M unit :=
  modify (fun st =>
    with_onlineUsers
      (JsMap.set (uid (user socket)) (presence_of socket now) (onlineUsers st)) st).

Definition on_send_message (socket : Socket) (data : value) : M unit :=
  destructure data ;;
  let conversationId := prop "conversationId" data in
  let message := prop "message" data in
  socket_to socket (tpl "conversation:" conversationId) "new-message" message.

Definition on_typing (socket : Socket) (data : value) : M unit :=
  destructure data ;;
  let conversationId := prop "conversationId" data in
  socket_to socket (tpl "conversation:" conversationId) "user-typing"
    (object [("userId", VStr (uid (user socket)));
             ("userEmail", VStr (email (user socket)))]).

Definition on_stop_typing (socket : Socket) (data : value) : M unit :=
  destructure data ;;
  let conversationId := prop "conversationId" data in
  socket_to socket (tpl "conversation:" conversationId) "user-stop-typing"
    (object [("userId", VStr (uid (user socket)));
             ("userEmail", VStr (email (user socket)))]).

Definition on_messages_read (socket : Socket) (data : value) : M unit :=
  destructure data ;;
  let conversationId := prop "conversationId" data in
  let messageIds := prop "messageIds" data in
  let readAt := prop "readAt" data in
  socket_to socket (tpl "conversation:" conversationId) "messages-read"
    (object [("conversationId", conversationId);
             ("messageIds", messageIds);
             ("readAt", readAt);
             ("readBy", VStr (uid (user socket)))]).

(** Logs only. *)
Definition main_disconnect_chat (socket : Socket) : M unit := mret tt.

(** ** [/signaling] *)

Definition on_join_room (socket : Socket) (roomId : value) : M unit :=
  socket_join socket roomId ;;
  socket_to socket roomId "user-joined"
    (object [("user_id", VStr (uid (user socket)));
             ("user_name", VStr (name_or_email (user socket)))]).

Definition on_leave_room (socket : Socket) (roomId : value) : M unit :=
  socket_leave socket roomId ;;
  socket_to socket roomId "user-left"
    (object [("user_id", VStr (uid (user socket)))]).

Definition on_offer (socket : Socket) (data : value) : M unit :=
  destructure data ;;
  socket_to socket (prop "roomId" data) "offer"
    (object [("offer", prop "offer" data);
             ("from", VStr (uid (user socket)))]).

Definition on_answer (socket : Socket) (data : value) : M unit :=
  destructure data ;;
  socket_to socket (prop "roomId" data) "answer"
    (object [("answer", prop "answer" data);
             ("from", VStr (uid (user socket)))]).

(** Logs only. *)
Definition signaling_disconnect (socket : Socket) : M unit := mret tt.

(** ** [/tasks] *)

Definition on_task_updated (socket : Socket) (data : value) : M unit :=
  socket_broadcast socket "task-updated" data.

Definition on_task_created (socket : Socket) (data : value) : M unit :=
  socket_broadcast socket "task-created" data.

Definition on_task_deleted (socket : Socket) (data : value) : M unit :=
  socket_broadcast socket "task-deleted" data.

(** ** [/docs] *)

Definition on_join_document (socket : Socket) (docId : value) : M unit :=
  socket_join socket (tpl "doc:" docId).

Definition on_leave_document (socket : Socket) (docId : value) : M unit :=
  socket_leave socket (tpl "doc:" docId).

Definition on_document_update (socket : Socket) (data : value) : M unit :=
  destructure data ;;
  socket_to socket (tpl "doc:" (prop "docId" data)) "document-update" data.

Definition on_cursor_update (socket : Socket) (data : value) : M unit :=
  destructure data ;;
  socket_to socket (tpl "doc:" (prop "docId" data)) "cursor-update"
    (object (("user_id", VStr (uid (user socket)))
             :: ("user_name", VStr (name_or_email (user socket)))
             :: own_props data)).

(** ** [/video-conference]: the meeting session store and the relay *)

Definition participant_value (p : Participant) : value :=
  object [("id", VStr (id p));
          ("user_id", VStr (user_id p));
          ("user_name", VStr (user_name p));
          ("user_email", VStr (user_email p));
          ("peer_id", peer_id p)].

Definition participant_of (socket : Socket) : Participant :=
  {| id := sid socket;
     user_id := uid (user socket);
     user_name := display_name (user socket);
     user_email := email (user socket);
     peer_id := VNull |}.

Definition with_peer_id (peerId : value) (p : Participant) : Participant :=
  {| id := id p; user_id := user_id p; user_name := user_name p;
     user_email := user_email p; peer_id := peerId |}.

(** A meeting's participants are a [Map] object held by the store: a
    change made to it through a reference is a change of the store's entry
    for that meeting. *)
Definition put_participants (meetingId : value)
    (participants : list (string * Participant)) : M unit :=
  modify (fun st =>
    with_meetingParticipants
      (JsMap.set meetingId participants (meetingParticipants st)) st).

Definition on_join_meeting (socket : Socket) (data : value) : M unit :=
  destructure data ;;
  let meetingId := prop "meetingId" data in
  socket_join socket (tpl "meeting:" meetingId) ;;
  known ← gets (fun st => JsMap.has meetingId (meetingParticipants st));
  (if known : bool then mret tt else put_participants meetingId []) ;;
  found ← gets (fun st => JsMap.get meetingId (meetingParticipants st));
  match found with
  | None => throw "TypeError"
  | Some participants =>
      let participants :=
        JsMap.set (sid socket) (participant_of socket) participants in
      put_participants meetingId participants ;;
      let existingParticipants :=
        filter (fun p => id p <> sid socket) (JsMap.values participants) in
      socket_emit socket "existing-participants"
        (VArr (participant_value <$> existingParticipants)) ;;
      socket_to socket (tpl "meeting:" meetingId) "participant-joined"
        (object [("id", VStr (sid socket));
                 ("user_id", VStr (uid (user socket)));
                 ("user_name", VStr (display_name (user socket)));
                 ("user_email", VStr (email (user socket)));
                 ("peer_id", VNull)])
  end.

(** [has(meetingId)] followed by [get(meetingId)] is one lookup. *)
Definition on_peer_connected (socket : Socket) (data : value) : M unit :=
  destructure data ;;
  let meetingId := prop "meetingId" data in
  let peerId := prop "peerId" data in
  found ← gets (fun st => JsMap.get meetingId (meetingParticipants st));
  match found with
  | Some participants =>
      match JsMap.get (sid socket) participants with
      | Some participant =>
          put_participants meetingId
            (JsMap.set (sid socket) (with_peer_id peerId participant) participants)
      | None => mret tt
      end
  | None => mret tt
  end ;;
  socket_to socket (tpl "meeting:" meetingId) "peer-connected"
    (object [("participantId", VStr (sid socket)); ("peerId", peerId)]).

(** Again [has] and [get] are one lookup. *)
Definition on_get_participants (socket : Socket) (data : value) : M unit :=
  destructure data ;;
  let meetingId := prop "meetingId" data in
  found ← gets (fun st => JsMap.get meetingId (meetingParticipants st));
  match found with
  | Some participants =>
      let participantsList :=
        filter (fun p => id p <> sid socket) (JsMap.values participants) in
      socket_emit socket "existing-participants"
        (VArr (participant_value <$> participantsList))
  | None =>
      socket_emit socket "existing-participants" (VArr [])
  end.

Definition on_leave_meeting (socket : Socket) (data : value) : M unit :=
  destructure data ;;
  let meetingId := prop "meetingId" data in
  socket_leave socket (tpl "meeting:" meetingId) ;;
  socket_to socket (tpl "meeting:" meetingId) "participant-left"
    (object [("id", VStr (sid socket));
             ("user_id", VStr (uid (user socket)))]).

(** The three WebRTC relays read [to] and [toParticipantId] from the
    payload and do not use them. *)
Definition on_webrtc (kind field : string) (socket : Socket) (data : value) : M unit :=
  destructure data ;;
  let body := prop field data in
  let meetingId := prop "meetingId" data in
  socket_to socket (tpl "meeting:" meetingId) kind
    (object [(field, body);
             ("from", VStr (display_name (user socket)));
             ("fromParticipantId", VStr (sid socket))]).

Definition on_webrtc_offer : Socket -> value -> M unit :=
  on_webrtc "webrtc-offer" "offer".
Definition on_webrtc_answer : Socket -> value -> M unit :=
  on_webrtc "webrtc-answer" "answer".
Definition on_webrtc_ice_candidate : Socket -> value -> M unit :=
  on_webrtc "webrtc-ice-candidate" "candidate".

(** First ['participant-update'] registration. *)
Definition on_participant_update_1 (socket : Socket) (data : value) : M unit :=
  destructure data ;;
  let participantId := prop "participantId" data in
  let meetingId := prop "meetingId" data in
  let updates := own_props (rest_props ["participantId"; "meetingId"] data) in
  socket_to socket (tpl "meeting:" meetingId) "participant-updated"
    (object (("id", participantId) :: updates)).

Definition on_speaking_status (socket : Socket) (data : value) : M unit :=
  destructure data ;;
  let participantId := prop "participantId" data in
  let isSpeaking := prop "isSpeaking" data in
  let meetingId := prop "meetingId" data in
  socket_to socket (tpl "meeting:" meetingId) "speaking-status"
    (object [("participantId", participantId); ("isSpeaking", isSpeaking)]).

(** First ['chat-message'] registration. *)
Definition on_chat_message_1 (socket : Socket) (data : value) : M unit :=
  destructure data ;;
  let meetingId := prop "meetingId" data in
  let message := rest_props ["meetingId"] data in
  socket_to socket (tpl "meeting:" meetingId) "chat-message" message.

Definition on_reaction (socket : Socket) (data : value) : M unit :=
  destructure data ;;
  let meetingId := prop "meetingId" data in
  let reaction := own_props (rest_props ["meetingId"] data) in
  socket_to socket (tpl "meeting:" meetingId) "reaction"
    (object (reaction ++ [("user_name", VStr (display_name (user socket)))])).

(** The handlers that forward the payload unchanged under another name:
    ['raise-hand'], the second ['participant-update'],
    ['mute-participant'], ['remove-participant'] and the second
    ['chat-message']. *)
Definition forward (out : string) (socket : Socket) (data : value) : M unit :=
  destructure data ;;
  let meetingId := prop "meetingId" data in
  socket_to socket (tpl "meeting:" meetingId) out data.

Definition on_raise_hand : Socket -> value -> M unit := forward "hand-raised".
Definition on_participant_update_2 : Socket -> value -> M unit := forward "participant-updated".
Definition on_mute_participant : Socket -> value -> M unit := forward "participant-muted".
Definition on_remove_participant : Socket -> value -> M unit := forward "participant-removed".
Definition on_chat_message_2 : Socket -> value -> M unit := forward "chat-message".

(** The callback of [meetingParticipants.forEach] in the ['disconnect']
    handler, applied to one entry of the store. *)
Definition video_disconnect_entry (socket : Socket)
    (entry : value * list (string * Participant)) : M unit :=
  let meetingId := entry.1 in
  let participants := entry.2 in
  if JsMap.has (sid socket) participants then
    let participants := JsMap.delete (sid socket) participants in
    put_participants meetingId participants ;;
    socket_to socket (tpl "meeting:" meetingId) "participant-left"
      (object [("id", VStr (sid socket));
               ("user_id", VStr (uid (user socket)))]) ;;
    if decide (JsMap.size participants = 0) then
      modify (fun st =>
        with_meetingParticipants
          (JsMap.delete meetingId (meetingParticipants st)) st)
    else mret tt
  else mret tt.

(** [meetingParticipants.forEach]: each entry is visited once, in order;
    deleting the entry being visited does not disturb the traversal. *)
Definition video_disconnect (socket : Socket) : M unit :=
  entries ← gets meetingParticipants;
  for_each entries (video_disconnect_entry socket).

(** ** Registration tables and dispatch *)

Definition Handler : Type := Socket -> value -> M unit.

(** The [socket.on(name, handler)] calls made for a connection of each
    namespace, in the order of registration. *)
Definition handlers (ns : Namespace) : list (string * Handler) :=
  match ns with
  | Main =>
      [("join-presence", on_join_presence);
       ("send-message", on_send_message);
       ("typing", on_typing);
       ("stop-typing", on_stop_typing);
       ("messages-read", on_messages_read)]
  | Signaling =>
      [("join-room", on_join_room);
       ("leave-room", on_leave_room);
       ("offer", on_offer);
       ("answer", on_answer)]
  | Tasks =>
      [("task-updated", on_task_updated);
       ("task-created", on_task_created);
       ("task-deleted", on_task_deleted)]
  | Docs =>
      [("join-document", on_join_document);
       ("leave-document", on_leave_document);
       ("document-update", on_document_update);
       ("cursor-update", on_cursor_update)]
  | VideoConference =>
      [("join-meeting", on_join_meeting);
       ("peer-connected", on_peer_connected);
       ("get-participants", on_get_participants);
       ("leave-meeting", on_leave_meeting);
       ("webrtc-offer", on_webrtc_offer);
       ("webrtc-answer", on_webrtc_answer);
       ("webrtc-ice-candidate", on_webrtc_ice_candidate);
       ("participant-update", on_participant_update_1);
       ("speaking-status", on_speaking_status);
       ("chat-message", on_chat_message_1);
       ("reaction", on_reaction);
       ("raise-hand", on_raise_hand);
       ("participant-update", on_participant_update_2);
       ("mute-participant", on_mute_participant);
       ("remove-participant", on_remove_participant);
       ("chat-message", on_chat_message_2)]
  | Chat => []
  end.

(** The ['connection'] listeners of each namespace that act on the state;
    each takes its own reading of the clock. *)
Definition on_connection (socket : Socket) (t1 t2 : Z) : M unit :=
  match nsp socket with
  | Main => main_connection_presence socket t1 ;; main_connection_chat socket t2
  | _ => mret tt
  end.

(** The ['disconnect'] listeners. *)
Definition on_disconnect (socket : Socket) : M unit :=
  match nsp socket with
  | Main => main_disconnect_presence socket ;; main_disconnect_chat socket
  | Signaling => signaling_disconnect socket
  | VideoConference => video_disconnect socket
  | _ => mret tt
  end.

(** All listeners registered for [name] run, in order. *)
Definition listeners (ns : Namespace) (name : string) : list Handler :=
  (filter (fun h => h.1 = name) (handlers ns)).*2.

Definition dispatch (socket : Socket) (name : string) (data : value) : M unit :=
  for_each (listeners (nsp socket) name) (fun h => h socket data).

(** What reaches the server from one connection. *)
Inductive Input : Type :=
| Connect (t1 t2 : Z)
| Message (name : string) (data : value)
| Disconnect.

Definition step (socket : Socket) (i : Input) (st : Server) : result (Server * list Emission) :=
  run (match i with
       | Connect t1 t2 => attach socket ;; on_connection socket t1 t2
       | Message name data => dispatch socket name data
       | Disconnect => detach socket ;; on_disconnect socket
       end) st.


(** The server handles its inputs one after another. *)
Fixpoint run_trace (inputs : list (Socket * Input)) (st : Server)
    : result (Server * list Emission) :=
  match inputs with
  | [] => Ok (st, [])
  | (socket, i) :: rest =>
      match step socket i st with
      | Ok (st1, out1) =>
          match run_trace rest st1 with
          | Ok (st2, out2) => Ok (st2, out1 ++ out2)
          | Throw e => Throw e
          end
      | Throw e => Throw e
      end
  end.

(** The state after a trace, when no handler threw. *)
Definition state_after (inputs : list (Socket * Input)) : option Server :=
  match run_trace inputs initial with
  | Ok (st, _) => Some st
  | Throw _ => None
  end.

(** * Notions used in the statements *)

(** The record the store holds for connection [c] in meeting [meetingId]. *)
Definition participant_record (st : Server) (meetingId : value) (c : string)
    : option Participant :=
  match JsMap.get meetingId (meetingParticipants st) with
  | Some participants => JsMap.get c participants
  | None => None
  end.

(** The store is a [Map] of [Map]s: no key occurs twice. *)
Definition store_ok (st : Server) : Prop :=
  NoDup (JsMap.keys (meetingParticipants st))
  /\ Forall (fun entry => NoDup (JsMap.keys entry.2)) (meetingParticipants st).

(** The store without connection [c]: its record is dropped from every
    meeting that has one, and a meeting emptied that way is dropped. *)
Fixpoint without_connection (c : string)
    (store : list (value * list (string * Participant)))
    : list (value * list (string * Participant)) :=
  match store with
  | [] => []
  | (meetingId, participants) :: rest =>
      if JsMap.has c participants then
        if decide (JsMap.size (JsMap.delete c participants) = 0)
        then without_connection c rest
        else (meetingId, JsMap.delete c participants) :: without_connection c rest
      else (meetingId, participants) :: without_connection c rest
  end.

(** The payload of the two presence broadcasts. *)
Definition announce (u : User) : value :=
  VObj [("userId", VStr (uid u)); ("userEmail", VStr (email u))].






(** The alphabet of the connection ids socket.io generates (URL-safe
    base64). *)
Definition id_char (c : ascii) : bool :=
  let n := nat_of_ascii c in
  ((48 <=? n)%nat && (n <=? 57)%nat) || ((65 <=? n)%nat && (n <=? 90)%nat)
  || ((97 <=? n)%nat && (n <=? 122)%nat)
  || Ascii.eqb c "-"%char || Ascii.eqb c "_"%char.

Definition socket_id (s : string) : bool :=
  forallb id_char (list_ascii_of_string s).

(** The states the server can be in: it starts with empty maps and no
    connection, and handles one input after another, each from a
    connection carrying a generated id. *)
Inductive reachable : Server -> Prop :=
| reachable_initial : reachable initial
| reachable_step (st st' : Server) (socket : Socket) (i : Input) (out : list Emission) :
    reachable st ->
    socket_id (sid socket) = true ->
    step socket i st = Ok (st', out) ->
    reachable st'.


(** [hoare I E m]: run from a state satisfying [I], the computation [m],
    if it does not throw, ends in a state satisfying [I] and emits only
    events satisfying [E]. *)
Definition hoare {A : Type} (I : Server -> Prop) (E : Emission -> Prop) (m : M A) : Prop :=
  forall st a st' out, I st -> m st = Ok (a, st', out) -> I st' /\ Forall E out.

(** * Scenarios *)

Definition alice : User :=
  {| uid := "u-alice"; email := "alice@example.org"; full_name := Some "Alice" |}.
Definition bob : User :=
  {| uid := "u-bob"; email := "bob@example.org"; full_name := None |}.

(** ** In [/video-conference] *)

Definition video_A : Socket := {| nsp := VideoConference; sid := "sA"; user := alice |}.
Definition video_B : Socket := {| nsp := VideoConference; sid := "sB"; user := bob |}.

Definition in_M1 : value := VObj [("meetingId", VStr "M1")].
Definition in_M2 : value := VObj [("meetingId", VStr "M2")].
Definition in_M3 : value := VObj [("meetingId", VStr "M3")].



Definition peer_of_A : value :=
  VObj [("meetingId", VStr "M1");
        ("participantId", VStr "sA");
        ("peerId", VStr "peer-A")].

(** The traces that lead to the states used below. *)
Definition connect_both : list (Socket * Input) :=
  [(video_A, Connect 0 0); (video_B, Connect 1 1)].

Definition A_joins_M1 : list (Socket * Input) :=
  connect_both ++ [(video_A, Message "join-meeting" in_M1)].

Definition A_joins_and_leaves_M1 : list (Socket * Input) :=
  A_joins_M1 ++ [(video_A, Message "leave-meeting" in_M1)].

Definition B_joins_M1 : list (Socket * Input) :=
  connect_both ++ [(video_B, Message "join-meeting" in_M1)].

Definition both_join_M1 : list (Socket * Input) :=
  A_joins_M1 ++ [(video_B, Message "join-meeting" in_M1)].

Definition join_three_meetings : list (Socket * Input) :=
  A_joins_M1 ++ [(video_A, Message "join-meeting" in_M2);
                 (video_B, Message "join-meeting" in_M2);
                 (video_B, Message "join-meeting" in_M3)].

(** Both connected; nobody has joined a meeting. *)
Definition video_idle : Server :=
  Eval vm_compute in default initial (state_after connect_both).

(** [video_A] alone is in meeting "M1"; [video_B] is connected. *)
Definition only_A_in_M1 : Server :=
  Eval vm_compute in default initial (state_after A_joins_M1).

(** The state after [video_A] has then sent ['leave-meeting'] for "M1". *)
Definition A_left_M1 : Server :=
  Eval vm_compute in default initial (state_after A_joins_and_leaves_M1).

(** [video_B] is in meeting "M1"; [video_A] is connected and has not
    joined it. *)
Definition only_B_in_M1 : Server :=
  Eval vm_compute in default initial (state_after B_joins_M1).

(** [video_A] and [video_B] are in meeting "M1". *)
Definition both_in_M1 : Server :=
  Eval vm_compute in default initial (state_after both_join_M1).

(** [video_A] in "M1" and "M2", [video_B] in "M2" and "M3". *)
Definition three_meetings : Server :=
  Eval vm_compute in default initial (state_after join_three_meetings).

(** ** In the main namespace *)

Definition main_old : Socket := {| nsp := Main; sid := "s1"; user := alice |}.
Definition main_new : Socket := {| nsp := Main; sid := "s2"; user := alice |}.
Definition main_bob : Socket := {| nsp := Main; sid := "s3"; user := bob |}.

Definition alice_twice_trace : list (Socket * Input) :=
  [(main_old, Connect 10 11); (main_bob, Connect 20 21); (main_new, Connect 30 31)].

(** Alice connected ([main_old]), Bob connected, Alice connected again
    ([main_new]): her presence record now names the newer connection. *)
Definition alice_twice : Server :=
  Eval vm_compute in default initial (state_after alice_twice_trace).


(** ** In [/tasks] *)

Definition tasks_1 : Socket := {| nsp := Tasks; sid := "t1"; user := alice |}.
Definition tasks_2 : Socket := {| nsp := Tasks; sid := "t2"; user := bob |}.

Definition connect_tasks : list (Socket * Input) :=
  [(tasks_1, Connect 0 0); (tasks_2, Connect 1 1)].

(** Two connections; neither is in any room but its own. *)
Definition tasks_idle : Server :=
  Eval vm_compute in default initial (state_after connect_tasks).


(** * Notions used in the further properties *)

(** The memberships of the connections other than [s], and the connected
    set, are those of the adapter [a0]. *)
Definition others_as (ns : Namespace) (s : string) (a0 : Adapter) (st : Server) : Prop :=
  conns (adapter ns st) = conns a0
  /\ forall k r, r <> s -> ((k, r) ∈ rooms (adapter ns st) <-> (k, r) ∈ rooms a0).










(** [video_A] and [video_B] joined "M1", then [video_A] sent
    ['leave-meeting'] for it. *)
Definition A_left_B_stays : Server :=
  Eval vm_compute in
    default initial
      (state_after (both_join_M1 ++ [(video_A, Message "leave-meeting" in_M1)])).

(** [video_A] is in "M1" with a peer id on record. *)
Definition A_has_peer : Server :=
  Eval vm_compute in
    default initial
      (state_after (both_join_M1 ++ [(video_A, Message "peer-connected" peer_of_A)])).

(** Every record of the store lies under the id of its own connection,
    and no meeting of the store is without a record. *)
Definition store_tidy (st : Server) : Prop :=
  Forall (fun entry => entry.2 <> [] /\ Forall (fun kp => id kp.2 = kp.1) entry.2)
         (meetingParticipants st).

(** The notice the ['disconnect'] handler of [/video-conference] sends for
    one meeting, delivered by the memberships of adapter [a]. *)
Definition left_notice (socket : Socket) (a : Adapter) (meetingId : value) : Emission :=
  {| target := ToRoom (tpl "meeting:" meetingId);
     event := "participant-left";
     payload := VObj [("id", VStr (sid socket)); ("user_id", VStr (uid (user socket)))];
     recipients := audience a (sid socket) (ToRoom (tpl "meeting:" meetingId)) |}.


(** * The authentication middleware

    [authenticateToken] guards the HTTP routes, [authenticateSocket] every
    socket.io namespace.  Both ask Supabase who a token belongs to;
    [supabase.auth.getUser] is a parameter of the model.  Of a user only
    the fields the socket handlers read are kept, a token that is present
    is a string, and the model ends where [next] is called. *)

Record Env : Type := {
  SUPABASE_URL : option string;
  SUPABASE_SERVICE_ROLE_KEY : option string;
  ALLOW_ANON : option string
}.

Definition truthy_var (v : option string) : bool :=
  match v with
  | Some s => if decide (s = "") then false else true
  | None => false
  end.

(** [Boolean(SUPABASE_URL && SUPABASE_SERVICE_ROLE_KEY)]; the client
    [supabase] is [null] exactly when this is [false]. *)
Definition hasSupabaseEnv (env : Env) : bool :=
  truthy_var (SUPABASE_URL env) && truthy_var (SUPABASE_SERVICE_ROLE_KEY env).

(** What [await supabase.auth.getUser(token)] comes to: the promise is
    rejected, or it resolves to [{ data, error }], where [data] may be
    missing and [data.user] may be [null]. *)
Inductive GetUser : Type :=
| Rejected
| Resolved (data : option (option User)) (error : bool).

Definition anonymous : User :=
  {| uid := "00000000-0000-0000-0000-000000000001";
     email := "anon@example.com";
     full_name := Some "Anonymous Dev" |}.

(** [s.split(' ')] *)
Fixpoint split_space (s : string) : list string :=
  match s with
  | EmptyString => [EmptyString]
  | String c s' =>
      if Ascii.eqb c " "%char then EmptyString :: split_space s'
      else match split_space s' with
           | piece :: pieces => String c piece :: pieces
           | [] => [String c EmptyString]
           end
  end.

(** [authHeader && authHeader.split(' ')[1]] *)
Definition header_token (authHeader : option string) : option string :=
  match authHeader with
  | None => None
  | Some s => if decide (s = "") then Some "" else split_space s !! 1%nat
  end.

(** [!token] *)
Definition no_token (token : option string) : bool :=
  match token with
  | None => true
  | Some s => if decide (s = "") then true else false
  end.

(** The middleware either calls [next()] with [req.user] set, or answers
    with a status and an error message. *)
Inductive HttpOutcome : Type :=
| Next (user : User)
| Respond (status : nat) (error : string).

Definition authenticateToken (env : Env) (getUser : string -> GetUser)
    (authHeader : option string) : HttpOutcome :=
  if negb (hasSupabaseEnv env) then
    if decide (ALLOW_ANON env = Some "true") then Next anonymous
    else Respond 500 "Server auth is not configured. Set SUPABASE_URL and SUPABASE_SERVICE_ROLE_KEY or enable ALLOW_ANON=true for local dev."
  else
    let token := header_token authHeader in
    if no_token token then Respond 401 "Access token required"
    else
      match getUser (default "" token) with
      | Resolved (Some user) error =>
          match user with
          | Some u => if error then Respond 403 "Invalid or expired token" else Next u
          | None => Respond 403 "Invalid or expired token"
          end
      | Resolved None _ => Respond 403 "Invalid token"
      | Rejected => Respond 403 "Invalid token"
      end.

(** The socket middleware calls [next()] with [socket.user] set, or
    [next(new Error(message))], which refuses the connection.  [token] is
    [socket.handshake.auth.token]. *)
Inductive SocketOutcome : Type :=
| Accept (user : User)
| Refuse (message : string).

Definition authenticateSocket (env : Env) (getUser : string -> GetUser)
    (token : option string) : SocketOutcome :=
  if negb (hasSupabaseEnv env) then
    if decide (ALLOW_ANON env = Some "true") then Accept anonymous
    else Refuse "Server auth not configured. Set SUPABASE_URL and SUPABASE_SERVICE_ROLE_KEY or enable ALLOW_ANON=true"
  else
    if no_token token then Refuse "Authentication error"
    else
      match getUser (default "" token) with
      | Resolved (Some user) error =>
          match user with
          | Some u => if error then Refuse "Authentication error" else Accept u
          | None => Refuse "Authentication error"
          end
      | Resolved None _ => Refuse "Authentication error"
      | Rejected => Refuse "Authentication error"
      end.

Definition no_space (s : string) : bool :=
  forallb (fun c => negb (Ascii.eqb c " "%char)) (list_ascii_of_string s).

(** A configured server, and a Supabase that knows one token. *)
Definition configured : Env :=
  {| SUPABASE_URL := Some "https://project.supabase.co";
     SUPABASE_SERVICE_ROLE_KEY := Some "service-role-key";
     ALLOW_ANON := Some "true" |}.

Definition knows_alice (token : string) : GetUser :=
  if decide (token = "tok-alice") then Resolved (Some (Some alice)) false
  else Resolved (Some None) true.




(** * Properties *)

(** ** Basic facts about [Map], objects and the monad *)

Ltac monad :=
  unfold mbind, M_bind, mret, M_ret, gets, modify, tell, throw in *.

Section JsMapFacts.
Context {K V : Type} `{EqDecision K}.
Implicit Types (k : K) (v : V) (m : list (K * V)).

Lemma get_set_eq k v m : JsMap.get k (JsMap.set k v m) = Some v.
Proof.
  induction m as [|[k' v'] m IH]; simpl.
  - rewrite decide_True; done.
  - destruct (decide (k = k')) as [->|Hne]; simpl.
    + rewrite decide_True; done.
    + rewrite decide_False; done.
Qed.


Lemma get_delete_ne k k' m : k <> k' -> JsMap.get k' (JsMap.delete k m) = JsMap.get k' m.
Proof.
  intros Hne. induction m as [|[k0 v0] m IH]; simpl; [done|].
  destruct (decide (k = k0)) as [->|Hk]; simpl.
  - rewrite decide_False; [done | congruence].
  - destruct (decide (k' = k0)); done.
Qed.

Lemma get_None_keys k m : JsMap.get k m = None <-> k ∉ JsMap.keys m.
Proof.
  unfold JsMap.keys. induction m as [|[k0 v0] m IH]; simpl.
  - split; [intros _; apply not_elem_of_nil | done].
  - rewrite not_elem_of_cons. destruct (decide (k = k0)); [|tauto].
    split; [done | tauto].
Qed.

Lemma get_Some_elem k v m : JsMap.get k m = Some v -> (k, v) ∈ m.
Proof.
  induction m as [|[k0 v0] m IH]; simpl; [done|].
  destruct (decide (k = k0)) as [->|Hk].
  - intros [= ->]. left.
  - intros Hg. right. auto.
Qed.

Lemma get_delete_eq k m : NoDup (JsMap.keys m) -> JsMap.get k (JsMap.delete k m) = None.
Proof.
  unfold JsMap.keys. induction m as [|[k0 v0] m IH]; simpl; [done|].
  intros Hnd. apply NoDup_cons in Hnd as [Hk0 Hnd].
  destruct (decide (k = k0)) as [->|Hk]; simpl.
  - by apply get_None_keys.
  - rewrite decide_False; auto.
Qed.

Lemma keys_set k v m :
  JsMap.keys (JsMap.set k v m)
  = if JsMap.has k m then JsMap.keys m else JsMap.keys m ++ [k].
Proof.
  unfold JsMap.has, JsMap.keys. induction m as [|[k0 v0] m IH]; csimpl; [done|].
  destruct (decide (k = k0)) as [->|Hk]; csimpl; [done|].
  rewrite IH. by destruct (JsMap.get k m).
Qed.

Lemma keys_delete_subseteq k m : JsMap.keys (JsMap.delete k m) ⊆ JsMap.keys m.
Proof.
  unfold JsMap.keys. induction m as [|[k0 v0] m IH]; csimpl; [done|].
  destruct (decide (k = k0)); csimpl.
  - intros x Hx. by right.
  - intros x Hx. apply elem_of_cons in Hx as [->|Hx]; [left | right; auto].
Qed.

Lemma NoDup_keys_delete k m :
  NoDup (JsMap.keys m) -> NoDup (JsMap.keys (JsMap.delete k m)).
Proof.
  unfold JsMap.keys. induction m as [|[k0 v0] m IH]; csimpl; [done|].
  intros Hnd. apply NoDup_cons in Hnd as [Hk0 Hnd].
  destruct (decide (k = k0)); csimpl; [done|].
  apply NoDup_cons. split; [|auto].
  intros Hin. apply Hk0. by apply (keys_delete_subseteq k m).
Qed.

Lemma NoDup_keys_set k v m :
  NoDup (JsMap.keys m) -> NoDup (JsMap.keys (JsMap.set k v m)).
Proof.
  intros Hnd. rewrite keys_set. unfold JsMap.has.
  destruct (JsMap.get k m) eqn:Hg; [done|].
  apply NoDup_app. split; [done|]. split; [|apply NoDup_singleton].
  intros x Hx Hx'. apply list_elem_of_singleton in Hx' as ->.
  by apply get_None_keys in Hg.
Qed.
End JsMapFacts.

Lemma destructure_ok data st :
  nullish data = false -> destructure data st = Ok (tt, st, []).
Proof. intros Hd. unfold destructure. by rewrite Hd. Qed.





Lemma emit_via_run (t : Target) (socket : Socket) (ev : string) (data : value) (st : Server) :
  emit_via t socket ev data st
  = Ok (tt, st, [{| target := t; event := ev; payload := data;
                    recipients := audience (adapter (nsp socket) st) (sid socket) t |}]).
Proof. reflexivity. Qed.

(** Runs straight-line handler code whose payload is known not to be
    [null] or [undefined]. *)
Ltac run_handler :=
  monad; cbv beta iota;
  repeat (first [ rewrite destructure_ok by assumption
                | rewrite emit_via_run ];
          cbv beta iota).

(** ** The roster sent on ['get-participants'] *)



(** ** Chat messages in a meeting *)



(** ** The WebRTC relays *)




(** ** The meeting session store *)

Lemma elem_of_add_member (x : value * string) room s ms :
  x ∈ add_member room s ms <-> x = (room, s) \/ x ∈ ms.
Proof.
  unfold add_member. destruct (decide ((room, s) ∈ ms)) as [Hin|Hin].
  - split; [auto|]. intros [->|H]; done.
  - rewrite elem_of_app, list_elem_of_singleton. tauto.
Qed.

Lemma set_set {K V : Type} `{EqDecision K} (k : K) (v v0 : V) (m : list (K * V)) :
  JsMap.set k v (JsMap.set k v0 m) = JsMap.set k v m.
Proof.
  induction m as [|[k' v'] m IH]; simpl.
  - by rewrite decide_True.
  - destruct (decide (k = k')) as [->|Hne]; simpl.
    + by rewrite decide_True.
    + rewrite decide_False by done. by rewrite IH.
Qed.





(** ** ['peer-connected'] *)




(** ** ['leave-meeting'] *)

(** ['leave-meeting'] never touches the store. *)
Lemma leave_meeting_store_unchanged (socket : Socket) (data : value) (st st' : Server)
    (out : list Emission) :
  nsp socket = VideoConference ->
  step socket (Message "leave-meeting" data) st = Ok (st', out) ->
  meetingParticipants st' = meetingParticipants st.
Proof.
  intros Hns. unfold step, dispatch. rewrite Hns.
  change (listeners VideoConference "leave-meeting") with [on_leave_meeting].
  unfold run, for_each, on_leave_meeting, socket_leave, socket_to, on_adapter.
  monad. unfold destructure. destruct (nullish data); [discriminate|].
  monad. cbv beta iota. rewrite emit_via_run. cbv beta iota.
  intros [= <- _]. rewrite Hns. reflexivity.
Qed.

(** C1. The code departs from the claim: when the only participant of
    "M1" sends ['leave-meeting'], the connection leaves the room and the
    departure notice is sent, but the store keeps both the record and the
    meeting; a later ['get-participants'] from another connection still
    lists the departed participant.  The ['disconnect'] handler, on the
    same state, removes the record and the meeting. *)
Theorem leave_meeting_keeps_record :
  step video_A (Message "leave-meeting" in_M1) only_A_in_M1
    = Ok (A_left_M1,
          [{| target := ToRoom (VStr "meeting:M1"); event := "participant-left";
              payload := VObj [("id", VStr "sA"); ("user_id", VStr "u-alice")];
              recipients := [] |}])
  /\ rooms (video_nsp A_left_M1) = [(VStr "sA", "sA"); (VStr "sB", "sB")]
  /\ meetingParticipants A_left_M1 = [(VStr "M1", [("sA", participant_of video_A)])]
  /\ participant_record A_left_M1 (VStr "M1") "sA" = Some (participant_of video_A)
  /\ step video_B (Message "get-participants" in_M1) A_left_M1
     = Ok (A_left_M1,
           [{| target := ToSelf; event := "existing-participants";
               payload := VArr [participant_value (participant_of video_A)];
               recipients := ["sB"] |}])
  /\ (exists st out, step video_A Disconnect only_A_in_M1 = Ok (st, out)
                     /\ meetingParticipants st = []).
Proof.
  repeat split; try reflexivity.
  eexists _, _. split; reflexivity.
Qed.

(** ** Presence *)

(** C2, as stated, fails: the record of Alice belongs to the newer
    connection, which is still connected, and the disconnect of the older
    one deletes it and announces Alice offline to everybody else, the
    newer connection included. *)
Lemma old_disconnect_announces_offline :
  JsMap.get "u-alice" (onlineUsers alice_twice) = Some (presence_of main_new 31)
  /\ "s2" ∈ conns (main_nsp alice_twice)
  /\ exists st' : Server,
       step main_old Disconnect alice_twice
         = Ok (st', [{| target := Broadcast; event := "user-offline";
                        payload := announce alice;
                        recipients := ["s3"; "s2"] |}])
       /\ JsMap.get "u-alice" (onlineUsers st') = None
       /\ "s2" ∈ conns (main_nsp st').
Proof.
  split; [reflexivity|]. split; [by vm_compute; repeat constructor|].
  eexists. split; [reflexivity|]. split; [reflexivity|].
  vm_compute. repeat constructor.
Qed.

(** What a new connection to the main namespace does, in any state. *)
Lemma main_connect_run (socket : Socket) (t1 t2 : Z) (st : Server) :
  nsp socket = Main ->
  let p := uid (user socket) in
  let a := {| conns := if decide (sid socket ∈ conns (main_nsp st))
                       then conns (main_nsp st)
                       else conns (main_nsp st) ++ [sid socket];
              rooms := add_member (VStr (sid socket)) (sid socket)
                         (rooms (main_nsp st)) |} in
  let first := JsMap.set p (presence_of socket t1) (onlineUsers st) in
  step socket (Connect t1 t2) st
  = Ok (with_onlineUsers (JsMap.set p (presence_of socket t2) (onlineUsers st))
          (with_adapter Main a st),
        [{| target := Broadcast; event := "user-online";
            payload := announce (user socket);
            recipients := filter (fun r => r <> sid socket) (conns a) |};
         {| target := ToSelf; event := "online-users-list";
            payload :=
              VObj [("users",
                VArr ((fun u => VObj [("id", VStr (p_id u)); ("email", VStr (p_email u))])
                      <$> JsMap.values first))];
            recipients := [sid socket] |}]).
Proof.
  intros Hns p a first.
  unfold step, run, attach, on_connection, on_adapter. rewrite Hns.
  unfold main_connection_presence, main_connection_chat, socket_broadcast, socket_emit.
  run_handler. simpl. rewrite Hns. simpl. rewrite set_set. reflexivity.
Qed.

(** What the disconnect of a main-namespace connection does, in any state. *)
Lemma main_disconnect_run (socket : Socket) (st : Server) :
  nsp socket = Main ->
  let a := {| conns := filter (fun s => s <> sid socket) (conns (main_nsp st));
              rooms := filter (fun m => m.2 <> sid socket) (rooms (main_nsp st)) |} in
  step socket Disconnect st
  = Ok (with_onlineUsers (JsMap.delete (uid (user socket)) (onlineUsers st))
          (with_adapter Main a st),
        [{| target := Broadcast; event := "user-offline";
            payload := announce (user socket);
            recipients := filter (fun r => r <> sid socket) (conns a) |}]).
Proof.
  intros Hns a.
  unfold step, run, detach, on_disconnect, on_adapter. rewrite Hns.
  unfold main_disconnect_presence, main_disconnect_chat, socket_broadcast.
  run_handler. simpl. rewrite Hns. reflexivity.
Qed.

(** C2, amended. When a principal that already has a presence record
    connects again, the record is overwritten in place by one naming the
    new connection, and the registration emits exactly one ['user-online']
    broadcast (its only other event is the ['online-users-list'] answer to
    the new connection).  The disconnect of any connection of the
    principal, the older one included, deletes the principal's presence
    record and broadcasts ['user-offline'] for the principal to every other
    connection, whichever connection the record names. *)
Theorem presence_last_connection_wins
    (new old : Socket) (t1 t2 : Z) (st later : Server) (previous : Presence) :
  nsp new = Main ->
  nsp old = Main ->
  uid (user old) = uid (user new) ->
  JsMap.get (uid (user new)) (onlineUsers st) = Some previous ->
  NoDup (JsMap.keys (onlineUsers later)) ->
  (exists (st' : Server) (online users_list : Emission),
     step new (Connect t1 t2) st = Ok (st', [online; users_list])
     /\ target online = Broadcast
     /\ event online = "user-online"
     /\ payload online = announce (user new)
     /\ (forall r, r ∈ recipients online <-> r ∈ conns (main_nsp st') /\ r <> sid new)
     /\ target users_list = ToSelf
     /\ event users_list = "online-users-list"
     /\ JsMap.get (uid (user new)) (onlineUsers st') = Some (presence_of new t2)
     /\ JsMap.keys (onlineUsers st') = JsMap.keys (onlineUsers st))
  /\ (exists (later' : Server) (offline : Emission),
        step old Disconnect later = Ok (later', [offline])
        /\ target offline = Broadcast
        /\ event offline = "user-offline"
        /\ payload offline = announce (user old)
        /\ prop "userId" (payload offline) = VStr (uid (user new))
        /\ (forall r, r ∈ recipients offline <-> r ∈ conns (main_nsp later') /\ r <> sid old)
        /\ onlineUsers later' = JsMap.delete (uid (user new)) (onlineUsers later)
        /\ JsMap.get (uid (user new)) (onlineUsers later') = None).
Proof.
  intros Hnew Hold Hsame Hprev Hnd. split.
  - eexists _, _, _. split; [apply (main_connect_run new t1 t2 st Hnew)|].
    split; [reflexivity|]. split; [reflexivity|]. split; [reflexivity|].
    split.
    { intros r. simpl. rewrite list_elem_of_filter. tauto. }
    split; [reflexivity|]. split; [reflexivity|].
    split; [simpl; apply get_set_eq|].
    simpl. rewrite keys_set. unfold JsMap.has. by rewrite Hprev.
  - eexists _, _. split; [apply (main_disconnect_run old later Hold)|].
    split; [reflexivity|]. split; [reflexivity|].
    split; [reflexivity|]. split; [simpl; by rewrite Hsame|].
    split.
    { intros r. simpl. rewrite !list_elem_of_filter. tauto. }
    split; [simpl; by rewrite Hsame|].
    simpl. rewrite Hsame. by apply get_delete_eq.
Qed.

Lemma presence_last_connection_wins_witness :
  nsp main_new = Main
  /\ nsp main_old = Main
  /\ uid (user main_old) = uid (user main_new)
  /\ JsMap.get (uid (user main_new)) (onlineUsers alice_twice)
     = Some (presence_of main_new 31)
  /\ NoDup (JsMap.keys (onlineUsers alice_twice))
  /\ exists (later' : Server) (offline : Emission),
       step main_old Disconnect alice_twice = Ok (later', [offline])
       /\ event offline = "user-offline"
       /\ JsMap.get (uid (user main_new)) (onlineUsers later') = None.
Proof.
  assert (Hnd : NoDup (JsMap.keys (onlineUsers alice_twice))).
  { compute_done. }
  split; [reflexivity|]. split; [reflexivity|]. split; [reflexivity|].
  split; [reflexivity|]. split; [exact Hnd|].
  destruct (presence_last_connection_wins main_new main_old 40 41
              alice_twice alice_twice (presence_of main_new 31)
              eq_refl eq_refl eq_refl eq_refl Hnd)
    as [_ (later' & offline & Hstep & _ & Hev & _ & _ & _ & _ & Hgone)].
  exists later', offline. split; [exact Hstep|]. split; [exact Hev | exact Hgone].
Defined.

(** ** Invariants of handler code *)

Section HoareRules.
Context (I : Server -> Prop) (E : Emission -> Prop).

Lemma hoare_ret {A} (a : A) : hoare I E (mret a).
Proof. intros st a' st' out HI [= <- <- <-]. split; [done | constructor]. Qed.

Lemma hoare_throw {A} (e : string) : hoare I E (throw e : M A).
Proof. intros st a st' out HI [=]. Qed.

Lemma hoare_gets {A} (f : Server -> A) : hoare I E (gets f).
Proof. intros st a st' out HI [= <- <- <-]. split; [done | constructor]. Qed.

Lemma hoare_modify (f : Server -> Server) :
  (forall st, I st -> I (f st)) -> hoare I E (modify f).
Proof. intros Hf st a st' out HI [= <- <- <-]. split; [auto | constructor]. Qed.

Lemma hoare_bind {A B} (m : M A) (f : A -> M B) :
  hoare I E m -> (forall a, hoare I E (f a)) -> hoare I E (m ≫= f).
Proof.
  intros Hm Hf st b st' out HI. monad.
  destruct (m st) as [[[a st1] out1]|] eqn:Hrun; [|done].
  destruct (Hm _ _ _ _ HI Hrun) as [HI1 HE1].
  destruct (f a st1) as [[[b' st2] out2]|] eqn:Hrun2; [|done].
  destruct (Hf a _ _ _ _ HI1 Hrun2) as [HI2 HE2].
  intros [= <- <- <-]. split; [done|]. by apply Forall_app.
Qed.

Lemma hoare_destructure (data : value) : hoare I E (destructure data).
Proof.
  unfold destructure. destruct (nullish data); [apply hoare_throw | apply hoare_ret].
Qed.

Lemma hoare_emit_via (t : Target) (socket : Socket) (ev : string) (data : value) :
  (forall st, I st ->
     E {| target := t; event := ev; payload := data;
          recipients := audience (adapter (nsp socket) st) (sid socket) t |}) ->
  hoare I E (emit_via t socket ev data).
Proof.
  intros HE st a st' out HI. rewrite emit_via_run. intros [= <- <- <-].
  split; [done|]. constructor; [auto | constructor].
Qed.

Lemma hoare_for_each {A} (xs : list A) (body : A -> M unit) :
  (forall x, x ∈ xs -> hoare I E (body x)) -> hoare I E (for_each xs body).
Proof.
  induction xs as [|x xs IH]; intros Hbody; simpl.
  - apply hoare_ret.
  - apply hoare_bind; [apply Hbody; left|].
    intros _. apply IH. intros y Hy. apply Hbody. by right.
Qed.

Lemma hoare_dispatch (socket : Socket) (name : string) (data : value) :
  Forall (fun h => h.1 = name -> hoare I E (h.2 socket data)) (handlers (nsp socket)) ->
  hoare I E (dispatch socket name data).
Proof.
  intros Hall. unfold dispatch, listeners. apply hoare_for_each.
  intros h Hh. apply list_elem_of_fmap in Hh as ([n h'] & -> & Hin).
  apply list_elem_of_filter in Hin as [Hname Hin].
  rewrite Forall_forall in Hall. by apply (Hall _ Hin).
Qed.

Lemma hoare_run (m : M unit) (st st' : Server) (out : list Emission) :
  hoare I E m -> I st -> run m st = Ok (st', out) -> I st' /\ Forall E out.
Proof.
  intros Hm HI. unfold run.
  destruct (m st) as [[[a st1] out1]|] eqn:Hrun; [|done].
  intros [= <- <-]. by apply (Hm _ _ _ _ HI Hrun).
Qed.
End HoareRules.

(** Breaks handler code down to its state changes and emissions. *)
Ltac hoare_step :=
  lazymatch goal with
  | |- hoare _ _ (mbind _ _) => apply hoare_bind; [|intros ?]
  | |- hoare _ _ (mret _) => apply hoare_ret
  | |- hoare _ _ (throw _) => apply hoare_throw
  | |- hoare _ _ (gets _) => apply hoare_gets
  | |- hoare _ _ (destructure _) => apply hoare_destructure
  | |- hoare _ _ (for_each _ _) => apply hoare_for_each; intros ? ?
  | |- hoare _ _ (socket_to _ _ _ _) => apply hoare_emit_via; intros ? ?
  | |- hoare _ _ (socket_emit _ _ _) => apply hoare_emit_via; intros ? ?
  | |- hoare _ _ (socket_broadcast _ _ _) => apply hoare_emit_via; intros ? ?
  | |- hoare _ _ (emit_via _ _ _ _) => apply hoare_emit_via; intros ? ?
  | |- hoare _ _ (modify _) => apply hoare_modify; intros ? ?
  | |- hoare _ _ (match ?x with _ => _ end) => destruct x
  end.

Ltac hoare_handler :=
  unfold on_join_presence, on_send_message, on_typing, on_stop_typing,
    on_messages_read, on_join_room, on_leave_room, on_offer, on_answer,
    on_task_updated, on_task_created, on_task_deleted, on_join_document,
    on_leave_document, on_document_update, on_cursor_update, on_join_meeting,
    on_peer_connected, on_get_participants, on_leave_meeting, on_webrtc_offer,
    on_webrtc_answer, on_webrtc_ice_candidate, on_webrtc,
    on_participant_update_1, on_speaking_status, on_chat_message_1,
    on_reaction, on_raise_hand, on_participant_update_2, on_mute_participant,
    on_remove_participant, on_chat_message_2, forward,
    main_connection_presence, main_connection_chat, main_disconnect_presence,
    main_disconnect_chat, signaling_disconnect, video_disconnect,
    video_disconnect_entry, socket_join, socket_leave, put_participants, attach, detach, on_adapter;
  repeat hoare_step.

(** One goal per registered handler, with the event name it listens to. *)
Ltac each_handler :=
  simpl;
  repeat (apply Forall_cons; split; [simpl; intros <- |]);
  try (by apply Forall_nil).

(** ** Scope of the relays *)





(** ** Reachable states *)










Lemma reachable_trace (inputs : list (Socket * Input)) (st0 st : Server)
    (out : list Emission) :
  reachable st0 ->
  Forall (fun si => socket_id (sid si.1) = true) inputs ->
  run_trace inputs st0 = Ok (st, out) ->
  reachable st.
Proof.
  revert st0 out. induction inputs as [|[socket i] inputs IH]; intros st0 out H0 Hids; simpl.
  - by intros [= <- _].
  - apply Forall_cons in Hids as [Hid Hids]. simpl in Hid.
    destruct (step socket i st0) as [[st1 out1]|] eqn:Hstep; [|done].
    destruct (run_trace inputs st1) as [[st2 out2]|] eqn:Hrest; [|done].
    intros [= <- _]. eapply IH; [| exact Hids | exact Hrest].
    by eapply reachable_step.
Qed.

Lemma reachable_state_after (inputs : list (Socket * Input)) (st : Server) :
  forallb (fun si => socket_id (sid si.1)) inputs = true ->
  state_after inputs = Some st ->
  reachable st.
Proof.
  intros Hids. unfold state_after.
  destruct (run_trace inputs initial) as [[st' out]|] eqn:Hrun; [|done].
  intros [= <-]. eapply reachable_trace; [apply reachable_initial | | exact Hrun].
  apply Forall_forall. intros si Hsi.
  rewrite forallb_forall in Hids. apply Hids. by apply list_elem_of_In.
Qed.

Ltac reach trace :=
  apply (reachable_state_after trace); vm_compute; reflexivity.

(** The states of the scenarios are reachable. *)
Lemma scenarios_reachable :
  reachable video_idle /\ reachable only_A_in_M1 /\ reachable A_left_M1
  /\ reachable only_B_in_M1 /\ reachable both_in_M1 /\ reachable three_meetings
  /\ reachable tasks_idle.
Proof.
  split; [reach connect_both|]. split; [reach A_joins_M1|].
  split; [reach A_joins_and_leaves_M1|]. split; [reach B_joins_M1|].
  split; [reach both_join_M1|]. split; [reach join_three_meetings|].
  reach connect_tasks.
Qed.



(** ** Disconnecting from [/video-conference] *)

Section StoreFacts.
Context {K V : Type} `{EqDecision K}.
Implicit Types (k : K) (v : V) (m pre rest : list (K * V)).

Lemma set_app_fresh k v v0 pre rest :
  k ∉ JsMap.keys pre ->
  JsMap.set k v (pre ++ (k, v0) :: rest) = pre ++ (k, v) :: rest.
Proof.
  unfold JsMap.keys. induction pre as [|[k' v'] pre IH]; csimpl; intros Hk.
  - by rewrite decide_True.
  - apply not_elem_of_cons in Hk as [Hne Hk].
    rewrite decide_False by done. by rewrite IH.
Qed.

Lemma delete_app_fresh k v pre rest :
  k ∉ JsMap.keys pre ->
  JsMap.delete k (pre ++ (k, v) :: rest) = pre ++ rest.
Proof.
  unfold JsMap.keys. induction pre as [|[k' v'] pre IH]; csimpl; intros Hk.
  - by rewrite decide_True.
  - apply not_elem_of_cons in Hk as [Hne Hk].
    rewrite decide_False by done. by rewrite IH.
Qed.
End StoreFacts.

Lemma keys_without_connection c store :
  JsMap.keys (without_connection c store) ⊆ JsMap.keys store.
Proof.
  unfold JsMap.keys. induction store as [|[m ps] store IH]; csimpl; [done|].
  destruct (JsMap.has c ps); [destruct (decide _)|]; csimpl.
  - intros x Hx. right. by apply IH.
  - intros x Hx. apply elem_of_cons in Hx as [->|Hx]; [left | right; by apply IH].
  - intros x Hx. apply elem_of_cons in Hx as [->|Hx]; [left | right; by apply IH].
Qed.

Lemma get_without_connection c m store :
  NoDup (JsMap.keys store) ->
  JsMap.get m (without_connection c store)
  = match JsMap.get m store with
    | Some ps =>
        if JsMap.has c ps then
          if decide (JsMap.size (JsMap.delete c ps) = 0) then None
          else Some (JsMap.delete c ps)
        else Some ps
    | None => None
    end.
Proof.
  unfold JsMap.keys. induction store as [|[m0 ps0] store IH]; csimpl; [done|].
  intros Hnd. apply NoDup_cons in Hnd as [Hm0 Hnd]. specialize (IH Hnd).
  destruct (decide (m = m0)) as [->|Hne].
  - destruct (JsMap.has c ps0); [destruct (decide _)|]; simpl;
      rewrite ?decide_True by done; try done.
    apply get_None_keys. intros Hin. apply Hm0.
    by apply (keys_without_connection c store).
  - destruct (JsMap.has c ps0); [destruct (decide _)|]; simpl;
      rewrite ?decide_False by done; done.
Qed.

Lemma store_ok_without_connection c store :
  NoDup (JsMap.keys store) ->
  Forall (fun entry => NoDup (JsMap.keys entry.2)) store ->
  NoDup (JsMap.keys (without_connection c store))
  /\ Forall (fun entry => NoDup (JsMap.keys entry.2)) (without_connection c store).
Proof.
  unfold JsMap.keys at 1 3. induction store as [|[m ps] store IH]; csimpl; [done|].
  intros Hnd Hall. apply NoDup_cons in Hnd as [Hm Hnd].
  apply Forall_cons in Hall as [Hps Hall]. destruct (IH Hnd Hall) as [IH1 IH2].
  assert (Hfresh : m ∉ (without_connection c store).*1).
  { intros Hin. apply Hm. by apply (keys_without_connection c store). }
  destruct (JsMap.has c ps); [destruct (decide _)|]; csimpl.
  - done.
  - split; [by apply NoDup_cons|]. apply Forall_cons. split; [|done].
    simpl. by apply NoDup_keys_delete.
  - split; [by apply NoDup_cons|]. by apply Forall_cons.
Qed.

(** One call of the callback. *)
Lemma video_disconnect_entry_run (socket : Socket) (meetingId : value)
    (participants : list (string * Participant)) (st : Server) :
  let remaining := JsMap.delete (sid socket) participants in
  let put := JsMap.set meetingId remaining (meetingParticipants st) in
  video_disconnect_entry socket (meetingId, participants) st
  = if JsMap.has (sid socket) participants then
      Ok (tt,
          with_meetingParticipants
            (if decide (JsMap.size remaining = 0)
             then JsMap.delete meetingId put else put) st,
          [{| target := ToRoom (tpl "meeting:" meetingId);
              event := "participant-left";
              payload := VObj [("id", VStr (sid socket));
                               ("user_id", VStr (uid (user socket)))];
              recipients := audience (adapter (nsp socket) st) (sid socket)
                              (ToRoom (tpl "meeting:" meetingId)) |}])
    else Ok (tt, st, []).
Proof.
  intros remaining put. unfold video_disconnect_entry. simpl.
  destruct (JsMap.has (sid socket) participants); [|reflexivity].
  unfold put_participants, socket_to. run_handler. fold remaining put.
  destruct (decide (JsMap.size remaining = 0)); destruct st; reflexivity.
Qed.

(** The traversal of the ['disconnect'] handler, started on the entries
    still to visit, with the entries already visited in front. *)
Lemma video_disconnect_loop (socket : Socket)
    (rest pre : list (value * list (string * Participant))) (st : Server) :
  meetingParticipants st = pre ++ rest ->
  NoDup (JsMap.keys (pre ++ rest)) ->
  exists out,
    for_each rest (video_disconnect_entry socket) st
    = Ok (tt,
          with_meetingParticipants (pre ++ without_connection (sid socket) rest) st,
          out).
Proof.
  revert pre st. induction rest as [|[m ps] rest IH]; intros pre st Hst Hnd.
  - exists []. simpl. rewrite <- Hst. by destruct st.
  - assert (Hm : m ∉ JsMap.keys pre).
    { unfold JsMap.keys in *. rewrite fmap_app in Hnd.
      apply NoDup_app in Hnd as (_ & Hdisj & _). intros Hin.
      apply (Hdisj m Hin). csimpl. left. }
    change (for_each ((m, ps) :: rest) (video_disconnect_entry socket))
      with (video_disconnect_entry socket (m, ps) ;;
            for_each rest (video_disconnect_entry socket)).
    unfold mbind, M_bind. rewrite video_disconnect_entry_run. cbv zeta.
    rewrite Hst, set_app_fresh by done. simpl without_connection.
    destruct (JsMap.has (sid socket) ps) eqn:Hhas.
    + destruct (decide (JsMap.size (JsMap.delete (sid socket) ps) = 0)) as [Hz|Hz].
      * rewrite delete_app_fresh by done.
        edestruct (IH pre) as [out Hout]; [| |rewrite Hout].
        { simpl. reflexivity. }
        { unfold JsMap.keys in *. rewrite fmap_app in *. csimpl in Hnd.
          apply NoDup_app in Hnd as (Hp & Hdisj & Hr).
          apply NoDup_cons in Hr as [_ Hr]. apply NoDup_app.
          split; [done|]. split; [|done]. intros x Hx Hx'.
          apply (Hdisj x Hx). by right. }
        eexists. reflexivity.
      * edestruct (IH (pre ++ [(m, JsMap.delete (sid socket) ps)])) as [out Hout];
          [| |rewrite Hout].
        { simpl. by rewrite <- app_assoc. }
        { rewrite <- app_assoc. simpl. unfold JsMap.keys in *.
          rewrite fmap_app in *. csimpl in *. done. }
        rewrite <- app_assoc. simpl. eexists. reflexivity.
    + edestruct (IH (pre ++ [(m, ps)]) st) as [out Hout]; [| |rewrite Hout].
      { rewrite Hst. by rewrite <- app_assoc. }
      { by rewrite <- app_assoc. }
      rewrite <- app_assoc. simpl. eexists. reflexivity.
Qed.

(** What the disconnect of a video-conference connection does to the
    store. *)
Lemma video_disconnect_run (socket : Socket) (st : Server) :
  nsp socket = VideoConference ->
  NoDup (JsMap.keys (meetingParticipants st)) ->
  exists st' out,
    step socket Disconnect st = Ok (st', out)
    /\ meetingParticipants st'
       = without_connection (sid socket) (meetingParticipants st)
    /\ Forall (fun e => event e = "participant-left") out.
Proof.
  intros Hns Hnd.
  set (st1 := with_adapter VideoConference
                {| conns := filter (fun s => s <> sid socket) (conns (video_nsp st));
                   rooms := filter (fun m => m.2 <> sid socket) (rooms (video_nsp st)) |}
                st).
  assert (Hdetach : detach socket st = Ok (tt, st1, [])).
  { unfold detach, on_adapter, modify. by rewrite Hns. }
  destruct (video_disconnect_loop socket (meetingParticipants st1) [] st1)
    as [out Hout]; [reflexivity | exact Hnd |].
  assert (Hev : Forall (fun e => event e = "participant-left") out).
  { eapply (hoare_for_each (fun _ => True) (fun e => event e = "participant-left")
              (meetingParticipants st1) (video_disconnect_entry socket));
      [| exact I | exact Hout].
    intros entry _. by hoare_handler. }
  unfold step, run, on_disconnect. rewrite Hns.
  unfold video_disconnect, mbind, M_bind, gets. rewrite Hdetach, Hout.
  eexists _, _. split; [reflexivity|]. split; [reflexivity|]. exact Hev.
Qed.

(** C4. When a connection of the video-conference namespace disconnects,
    every meeting that held a record of it either loses that record or,
    if the record was its last one, disappears from the store; afterwards
    no meeting holds a record of the connection; and every meeting that
    held no record of it is exactly as before. *)
Theorem disconnect_leaves_every_meeting (socket : Socket) (st : Server) :
  nsp socket = VideoConference ->
  store_ok st ->
  exists st' out,
    step socket Disconnect st = Ok (st', out)
    /\ (forall m ps,
          JsMap.get m (meetingParticipants st) = Some ps ->
          JsMap.has (sid socket) ps = true ->
          JsMap.get m (meetingParticipants st')
          = if decide (JsMap.size (JsMap.delete (sid socket) ps) = 0)
            then None else Some (JsMap.delete (sid socket) ps))
    /\ (forall m, participant_record st' m (sid socket) = None)
    /\ (forall m,
          participant_record st m (sid socket) = None ->
          JsMap.get m (meetingParticipants st') = JsMap.get m (meetingParticipants st))
    /\ store_ok st'.
Proof.
  intros Hns [Hnd Hall].
  destruct (video_disconnect_run socket st Hns Hnd) as (st' & out & Hstep & Hst' & _).
  exists st', out. split; [exact Hstep|].
  assert (Hget := fun m => get_without_connection (sid socket) m _ Hnd).
  rewrite <- Hst' in Hget.
  split; [|split; [|split]].
  - intros m ps Hm Hhas. by rewrite Hget, Hm, Hhas.
  - intros m. unfold participant_record. rewrite Hget.
    destruct (JsMap.get m (meetingParticipants st)) as [ps|] eqn:Hm; [|done].
    destruct (JsMap.has (sid socket) ps) eqn:Hhas.
    + destruct (decide _); [done|]. apply get_delete_eq.
      apply get_Some_elem in Hm. rewrite Forall_forall in Hall.
      apply (Hall _ Hm).
    + unfold JsMap.has in Hhas. by destruct (JsMap.get (sid socket) ps).
  - intros m. unfold participant_record. rewrite Hget.
    destruct (JsMap.get m (meetingParticipants st)) as [ps|] eqn:Hm; [|done].
    intros Hnone. unfold JsMap.has. by rewrite Hnone.
  - unfold store_ok. rewrite Hst'. by apply store_ok_without_connection.
Qed.

Lemma disconnect_leaves_every_meeting_witness :
  nsp video_A = VideoConference
  /\ store_ok three_meetings
  /\ exists st' out,
       step video_A Disconnect three_meetings = Ok (st', out)
       /\ meetingParticipants st'
          = [(VStr "M2", [("sB", participant_of video_B)]);
             (VStr "M3", [("sB", participant_of video_B)])]
       /\ (forall m, participant_record st' m (sid video_A) = None).
Proof.
  assert (Hok : store_ok three_meetings) by (split; compute_done).
  split; [reflexivity|]. split; [exact Hok|].
  destruct (disconnect_leaves_every_meeting video_A three_meetings eq_refl Hok)
    as (st' & out & Hstep & _ & Hgone & _).
  exists st', out. split; [exact Hstep|]. split; [|exact Hgone].
  vm_compute in Hstep. by injection Hstep as <- _.
Defined.

(** ** The store stays well formed *)

Lemma store_ok_with_adapter (ns : Namespace) (a : Adapter) (st : Server) :
  store_ok st -> store_ok (with_adapter ns a st).
Proof. by destruct ns. Qed.

Lemma Forall_set {K V : Type} `{EqDecision K} (P : K * V -> Prop) (k : K) (v : V)
    (m : list (K * V)) :
  Forall P m -> P (k, v) -> Forall P (JsMap.set k v m).
Proof.
  intros Hm Hkv. induction Hm as [|[k' v'] m Hx Hm IH]; simpl.
  - by apply Forall_cons.
  - destruct (decide (k = k')); apply Forall_cons; auto.
Qed.

Lemma store_ok_put (meetingId : value) (participants : list (string * Participant))
    (st : Server) :
  store_ok st ->
  NoDup (JsMap.keys participants) ->
  store_ok (with_meetingParticipants
              (JsMap.set meetingId participants (meetingParticipants st)) st).
Proof.
  intros [Hnd Hall] Hps. split; simpl.
  - by apply NoDup_keys_set.
  - by apply Forall_set.
Qed.

Lemma store_ok_get (meetingId : value) (participants : list (string * Participant))
    (st : Server) :
  store_ok st ->
  JsMap.get meetingId (meetingParticipants st) = Some participants ->
  NoDup (JsMap.keys participants).
Proof.
  intros [_ Hall] Hget. apply get_Some_elem in Hget.
  rewrite Forall_forall in Hall. apply (Hall _ Hget).
Qed.

Lemma join_meeting_keeps_store_ok (socket : Socket) (data : value) :
  hoare store_ok (fun _ => True) (on_join_meeting socket data).
Proof.
  intros st a st' out Hok. unfold on_join_meeting, socket_join, socket_to,
    socket_emit, put_participants, on_adapter.
  unfold destructure. destruct (nullish data); [by monad|].
  run_handler. simpl.
  set (m := prop "meetingId" data).
  assert (Hok1 := store_ok_with_adapter (nsp socket)
     {| conns := conns (adapter (nsp socket) st);
        rooms := add_member (tpl "meeting:" m) (sid socket)
                   (rooms (adapter (nsp socket) st)) |} st Hok).
  revert Hok1.
  match goal with |- store_ok ?s -> _ => set (st1 := s) end.
  assert (Hmp : meetingParticipants st1 = meetingParticipants st)
    by (unfold st1; by destruct (nsp socket)).
  intros Hok1.
  destruct (JsMap.has m (meetingParticipants st1)) eqn:Hhas; cbv beta iota.
  - unfold JsMap.has in Hhas.
    destruct (JsMap.get m (meetingParticipants st1)) as [ps|] eqn:Hget; [|done].
    run_handler. intros [= _ <- _]. split; [|by apply Forall_true].
    apply store_ok_put; [done|].
    apply NoDup_keys_set. by eapply store_ok_get.
  - simpl. rewrite get_set_eq. run_handler. intros [= _ <- _].
    split; [|by apply Forall_true].
    apply store_ok_put.
    + apply (store_ok_put m [] st1 Hok1). apply NoDup_nil_2.
    + apply (NoDup_keys_set (sid socket) (participant_of socket) []), NoDup_nil_2.
Qed.

Lemma peer_connected_keeps_store_ok (socket : Socket) (data : value) :
  hoare store_ok (fun _ => True) (on_peer_connected socket data).
Proof.
  intros st a st' out Hok. unfold on_peer_connected, socket_to, put_participants.
  unfold destructure. destruct (nullish data); [by monad|].
  run_handler.
  destruct (JsMap.get (prop "meetingId" data) (meetingParticipants st))
    as [ps|] eqn:Hget.
  - destruct (JsMap.get (sid socket) ps) as [p|] eqn:Hp.
    + run_handler. intros [= _ <- _]. split; [|by apply Forall_true].
      apply store_ok_put; [done|]. apply NoDup_keys_set. by eapply store_ok_get.
    + run_handler. intros [= _ <- _]. split; [done | by apply Forall_true].
  - run_handler. intros [= _ <- _]. split; [done | by apply Forall_true].
Qed.

Lemma handlers_keep_store_ok (socket : Socket) (name : string) (data : value) :
  Forall (fun h => h.1 = name -> hoare store_ok (fun _ => True) (h.2 socket data))
         (handlers (nsp socket)).
Proof.
  destruct (nsp socket) eqn:Hns; each_handler;
    first [ apply join_meeting_keeps_store_ok
          | apply peer_connected_keeps_store_ok
          | hoare_handler; try done; by apply store_ok_with_adapter ].
Qed.

Lemma step_keeps_store_ok (socket : Socket) (i : Input) (st st' : Server)
    (out : list Emission) :
  store_ok st -> step socket i st = Ok (st', out) -> store_ok st'.
Proof.
  intros Hok Hstep. destruct i as [t1 t2|name data|].
  - unfold step in Hstep.
    eapply (hoare_run store_ok (fun _ => True)); [| exact Hok | exact Hstep].
    apply hoare_bind.
    + hoare_handler. by apply store_ok_with_adapter.
    + intros _. unfold on_connection. destruct (nsp socket); hoare_handler; done.
  - unfold step in Hstep.
    eapply (hoare_run store_ok (fun _ => True)); [| exact Hok | exact Hstep].
    apply hoare_dispatch, handlers_keep_store_ok.
  - destruct (decide (nsp socket = VideoConference)) as [Hns|Hns].
    + destruct Hok as [Hnd Hall].
      destruct (video_disconnect_run socket st Hns Hnd)
        as (st1 & out1 & Hstep1 & Hst1 & _).
      rewrite Hstep in Hstep1. injection Hstep1 as -> _.
      unfold store_ok. rewrite Hst1. by apply store_ok_without_connection.
    + unfold step in Hstep.
      eapply (hoare_run store_ok (fun _ => True)); [| exact Hok | exact Hstep].
      apply hoare_bind.
      * hoare_handler. by apply store_ok_with_adapter.
      * intros _. unfold on_disconnect.
        destruct (nsp socket); hoare_handler; done.
Qed.

(** Every reachable state has a well-formed store. *)
Lemma reachable_store_ok (st : Server) : reachable st -> store_ok st.
Proof.
  induction 1 as [|st st' socket i out _ IH _ Hstep].
  - split; [apply NoDup_nil_2 | by apply Forall_nil].
  - by eapply step_keeps_store_ok.
Qed.

(** ** The presence registry stays well formed *)

Lemma users_ok_with_adapter (ns : Namespace) (a : Adapter) (st : Server) :
  NoDup (JsMap.keys (onlineUsers st)) ->
  NoDup (JsMap.keys (onlineUsers (with_adapter ns a st))).
Proof. by destruct ns. Qed.

Lemma handlers_keep_users_ok (socket : Socket) (name : string) (data : value) :
  Forall (fun h => h.1 = name ->
            hoare (fun st => NoDup (JsMap.keys (onlineUsers st))) (fun _ => True)
                  (h.2 socket data))
         (handlers (nsp socket)).
Proof.
  destruct (nsp socket) eqn:Hns; each_handler;
    hoare_handler; try done; by apply users_ok_with_adapter.
Qed.

(** Every reachable state has at most one presence record per principal. *)
Lemma reachable_users_ok (st : Server) :
  reachable st -> NoDup (JsMap.keys (onlineUsers st)).
Proof.
  induction 1 as [|st st' socket i out _ IH _ Hstep].
  - apply NoDup_nil_2.
  - unfold step in Hstep.
    eapply (hoare_run (fun st => NoDup (JsMap.keys (onlineUsers st))) (fun _ => True));
      [| exact IH | exact Hstep].
    destruct i as [t1 t2|name data|].
    + apply hoare_bind.
      * hoare_handler. by apply users_ok_with_adapter.
      * intros _. unfold on_connection.
        destruct (nsp socket); hoare_handler; try done; simpl;
          by apply NoDup_keys_set.
    + apply hoare_dispatch, handlers_keep_users_ok.
    + apply hoare_bind.
      * hoare_handler. by apply users_ok_with_adapter.
      * intros _. unfold on_disconnect.
        destruct (nsp socket); hoare_handler; try done; simpl;
          by apply NoDup_keys_delete.
Qed.

(** * Further properties *)

(** ** Namespaces and delivery *)

Lemma adapter_with_adapter (ns : Namespace) (a : Adapter) (st : Server) :
  adapter ns (with_adapter ns a st) = a.
Proof. by destruct ns. Qed.


Lemma adapter_with_onlineUsers ns m st :
  adapter ns (with_onlineUsers m st) = adapter ns st.
Proof. by destruct ns. Qed.

Lemma adapter_with_meetingParticipants ns m st :
  adapter ns (with_meetingParticipants m st) = adapter ns st.
Proof. by destruct ns. Qed.

Lemma elem_of_join_rooms (x : value * string) (s : string) (rs : list value)
    (ms : list (value * string)) :
  x ∈ foldl (fun ms r => add_member r s ms) ms rs
  <-> x ∈ ms \/ (x.2 = s /\ x.1 ∈ rs).
Proof.
  revert ms. induction rs as [|r rs IH]; intros ms; simpl.
  - split; [auto|]. intros [H|[_ H]]; [done | by apply elem_of_nil in H].
  - rewrite IH, elem_of_add_member, elem_of_cons. destruct x as [k r']. simpl.
    split.
    + intros [[[= -> ->]|H]|[Hs H]]; auto.
    + intros [H|[-> [->|H]]]; auto.
Qed.

Lemma same_audience (a a' : Adapter) (s : string) (t : Target) :
  conns a = conns a' ->
  (forall k r, r <> s -> ((k, r) ∈ rooms a <-> (k, r) ∈ rooms a')) ->
  audience a s t = audience a' s t.
Proof.
  intros Hc Hr. destruct t as [|room|]; simpl; [done| |by rewrite Hc].
  rewrite Hc. apply list_filter_iff. intros r. simpl.
  rewrite !Exists_exists. split; intros [Hne [Hnil|(k & Hk & Hin)]]; split; auto;
    right; exists k; (split; [done|]); by apply (Hr k r Hne).
Qed.

Lemma others_as_refl ns s st : others_as ns s (adapter ns st) st.
Proof. by split. Qed.

Lemma others_as_with_adapter ns s a0 a st :
  others_as ns s a0 st ->
  conns a = conns (adapter ns st) ->
  (forall k r, r <> s -> ((k, r) ∈ rooms a <-> (k, r) ∈ rooms (adapter ns st))) ->
  others_as ns s a0 (with_adapter ns a st).
Proof.
  intros [Hc Hr] Hc' Hr'. unfold others_as. rewrite adapter_with_adapter.
  split; [congruence|]. intros k r Hne. by rewrite Hr', Hr.
Qed.

Ltac keep_others :=
  try match goal with
  | H : others_as _ _ _ _ |- recipients _ = _ =>
      cbn [recipients target]; destruct H as [Hc Hr]; by apply same_audience
  | H : others_as _ _ _ _ |- others_as _ _ _ (with_meetingParticipants _ _) =>
      unfold others_as; by rewrite adapter_with_meetingParticipants
  | H : others_as _ _ _ _ |- others_as _ _ _ (with_onlineUsers _ _) =>
      unfold others_as; by rewrite adapter_with_onlineUsers
  | H : others_as _ _ _ _ |- others_as _ _ _ (with_adapter _ _ _) =>
      apply others_as_with_adapter; [done | done |];
      intros k r Hne; cbn [rooms];
      first [ rewrite elem_of_join_rooms; simpl; split; [intros [?|[? _]]; done | auto]
            | rewrite list_elem_of_filter; split; [tauto|];
              intros Hin; split; [|done]; intros [= _ ->]; done ]
  end.

(** Every handler leaves the connected set and the memberships of the
    other connections alone, and delivers according to them. *)
Lemma handlers_keep_others (socket : Socket) (name : string) (data : value)
    (a0 : Adapter) :
  Forall (fun h => h.1 = name ->
            hoare (others_as (nsp socket) (sid socket) a0)
                  (fun e => recipients e = audience a0 (sid socket) (target e))
                  (h.2 socket data))
         (handlers (nsp socket)).
Proof.
  remember (nsp socket) as ns eqn:Hns. symmetry in Hns.
  destruct ns; each_handler; hoare_handler; rewrite ?Hns; keep_others.
Qed.

Lemma lifecycle_keeps_others (socket : Socket) (t1 t2 : Z) (a0 : Adapter) :
  hoare (others_as (nsp socket) (sid socket) a0)
        (fun e => recipients e = audience a0 (sid socket) (target e))
        (on_connection socket t1 t2)
  /\ hoare (others_as (nsp socket) (sid socket) a0)
           (fun e => recipients e = audience a0 (sid socket) (target e))
           (on_disconnect socket).
Proof.
  unfold on_connection, on_disconnect.
  remember (nsp socket) as ns eqn:Hns. symmetry in Hns.
  split; destruct ns; hoare_handler; rewrite ?Hns; keep_others.
Qed.

(** The state in which the listeners of an input start: after the
    connection has entered, or left, its namespace. *)
Lemma step_from (socket : Socket) (i : Input) (st st' : Server) (out : list Emission) :
  step socket i st = Ok (st', out) ->
  exists st1,
    st1 = match i with
          | Connect _ _ =>
              with_adapter (nsp socket)
                {| conns := if decide (sid socket ∈ conns (adapter (nsp socket) st))
                            then conns (adapter (nsp socket) st)
                            else conns (adapter (nsp socket) st) ++ [sid socket];
                   rooms := add_member (VStr (sid socket)) (sid socket)
                              (rooms (adapter (nsp socket) st)) |} st
          | Message _ _ => st
          | Disconnect =>
              with_adapter (nsp socket)
                {| conns := filter (fun s => s <> sid socket)
                              (conns (adapter (nsp socket) st));
                   rooms := filter (fun m => m.2 <> sid socket)
                              (rooms (adapter (nsp socket) st)) |} st
          end
    /\ exists a,
         match i with
         | Connect t1 t2 => on_connection socket t1 t2
         | Message name data => dispatch socket name data
         | Disconnect => on_disconnect socket
         end st1 = Ok (a, st', out).
Proof.
  unfold step, run. destruct i as [t1 t2|name data|].
  - unfold attach, on_adapter. monad. cbv beta iota.
    match goal with |- context [on_connection _ _ _ ?s] => set (st1 := s) end.
    destruct (on_connection socket t1 t2 st1) as [[[a s] o]|] eqn:Hrun; [|done].
    intros [= <- <-]. exists st1. split; [done|]. by exists a.
  - destruct (dispatch socket name data st) as [[[a s] o]|] eqn:Hrun; [|done].
    intros [= <- <-]. exists st. split; [done|]. by exists a.
  - unfold detach, on_adapter. monad. cbv beta iota.
    match goal with |- context [on_disconnect _ ?s] => set (st1 := s) end.
    destruct (on_disconnect socket st1) as [[[a s] o]|] eqn:Hrun; [|done].
    intros [= <- <-]. exists st1. split; [done|]. by exists a.
Qed.






Lemma others_before_step (socket : Socket) (i : Input) (st st' : Server)
    (out : list Emission) :
  step socket i st = Ok (st', out) ->
  (forall r, r <> sid socket ->
     (r ∈ conns (adapter (nsp socket) st') <-> r ∈ conns (adapter (nsp socket) st)))
  /\ (forall k r, r <> sid socket ->
        ((k, r) ∈ rooms (adapter (nsp socket) st')
         <-> (k, r) ∈ rooms (adapter (nsp socket) st)))
  /\ Forall (fun e => forall r,
               r ∈ recipients e
               <-> match target e with
                   | ToSelf => r = sid socket
                   | t => r ∈ conns (adapter (nsp socket) st)
                          /\ reaches (adapter (nsp socket) st) (sid socket) t r
                   end) out.
Proof.
  intros Hstep. destruct (step_from _ _ _ _ _ Hstep) as (st1 & Hst1 & a & Hrun).
  set (ns := nsp socket) in *. set (s := sid socket) in *.
  assert (Hc1 : forall r, r <> s ->
            (r ∈ conns (adapter ns st1) <-> r ∈ conns (adapter ns st))).
  { intros r Hne. rewrite Hst1. destruct i; rewrite ?adapter_with_adapter; cbn [conns].
    - destruct (decide _); [done|]. rewrite elem_of_app, list_elem_of_singleton. tauto.
    - done.
    - rewrite list_elem_of_filter. tauto. }
  assert (Hr1 : forall k r, r <> s ->
            ((k, r) ∈ rooms (adapter ns st1) <-> (k, r) ∈ rooms (adapter ns st))).
  { intros k r Hne. rewrite Hst1. destruct i; rewrite ?adapter_with_adapter; cbn [rooms].
    - rewrite elem_of_add_member. split; [intros [[= _ ->]|?]; done | auto].
    - done.
    - rewrite list_elem_of_filter. simpl. tauto. }
  assert (Hh : others_as ns s (adapter ns st1) st'
               /\ Forall (fun e => recipients e = audience (adapter ns st1) s (target e))
                         out).
  { pose proof (others_as_refl ns s st1) as H1. destruct i as [t1 t2|name data|].
    - by apply (proj1 (lifecycle_keeps_others socket t1 t2 _) _ _ _ _ H1 Hrun).
    - by apply (hoare_dispatch _ _ socket name data
                  (handlers_keep_others socket name data _) _ _ _ _ H1 Hrun).
    - by apply (proj2 (lifecycle_keeps_others socket 0 0 _) _ _ _ _ H1 Hrun). }
  destruct Hh as [[Hc Hr] Hout].
  split; [|split].
  - intros r Hne. rewrite Hc. by apply Hc1.
  - intros k r Hne. rewrite Hr by done. by apply Hr1.
  - eapply Forall_impl; [exact Hout|]. intros e He r. simpl in He. rewrite He.
    assert (Hreach : forall t, t <> ToSelf ->
              (r ∈ conns (adapter ns st1) /\ reaches (adapter ns st1) s t r)
              <-> (r ∈ conns (adapter ns st) /\ reaches (adapter ns st) s t r)).
    { intros t Ht. destruct t as [|room|]; [done| |]; simpl.
      - rewrite !Exists_exists. split.
        + intros [Hin [Hne [Hnil|(k & Hk & Hm)]]]; (split; [by apply Hc1|]);
            (split; [done|]); [by left|]. right. exists k. split; [done|]. by apply Hr1.
        + intros [Hin [Hne [Hnil|(k & Hk & Hm)]]]; (split; [by apply Hc1|]);
            (split; [done|]); [by left|]. right. exists k. split; [done|]. by apply Hr1.
      - split; intros [Hin Hne]; (split; [by apply Hc1 | done]). }
    destruct (target e) as [|room|] eqn:Ht; cbn [audience].
    + apply list_elem_of_singleton.
    + rewrite list_elem_of_filter, <- (Hreach (ToRoom room)) by done. tauto.
    + rewrite list_elem_of_filter, <- (Hreach Broadcast) by done. tauto.
Qed.



(** ** What changes the state *)





(** ** Thrown errors *)

Section TotalRules.








End TotalRules.











(** ** The list of online users *)

Lemma values_set_same_image {K V B : Type} `{EqDecision K} (g : V -> B)
    (k : K) (v1 v2 : V) (m : list (K * V)) :
  g v1 = g v2 ->
  g <$> JsMap.values (JsMap.set k v1 m) = g <$> JsMap.values (JsMap.set k v2 m).
Proof.
  intros Hg. unfold JsMap.values. induction m as [|[k' v'] m IH]; csimpl.
  - by rewrite Hg.
  - destruct (decide (k = k')); csimpl; [by rewrite Hg | by rewrite IH].
Qed.

Lemma value_in_values_set {K V : Type} `{EqDecision K} (k : K) (v : V)
    (m : list (K * V)) :
  v ∈ JsMap.values (JsMap.set k v m).
Proof.
  unfold JsMap.values. apply list_elem_of_fmap. exists (k, v). split; [done|].
  apply get_Some_elem, get_set_eq.
Qed.

(** X6. The ['online-users-list'] a new main-namespace connection is
    answered with lists the presence registry as the connection leaves
    it: one [{id, email}] entry per record, in the registry's order, the
    newcomer's own entry included; it goes to the newcomer alone. *)
Theorem online_users_list_is_the_registry
    (socket : Socket) (t1 t2 : Z) (st : Server) :
  nsp socket = Main ->
  let entry (u : Presence) :=
    VObj [("id", VStr (p_id u)); ("email", VStr (p_email u))] in
  exists (st' : Server) (online users_list : Emission),
    step socket (Connect t1 t2) st = Ok (st', [online; users_list])
    /\ event users_list = "online-users-list"
    /\ recipients users_list = [sid socket]
    /\ payload users_list
       = VObj [("users", VArr (entry <$> JsMap.values (onlineUsers st')))]
    /\ VObj [("id", VStr (uid (user socket))); ("email", VStr (email (user socket)))]
       ∈ entry <$> JsMap.values (onlineUsers st')
    /\ length (entry <$> JsMap.values (onlineUsers st')) = JsMap.size (onlineUsers st').
Proof.
  intros Hns entry. eexists _, _, _.
  split; [apply (main_connect_run socket t1 t2 st Hns)|].
  split; [reflexivity|]. split; [reflexivity|]. split; [|split].
  - simpl. do 4 f_equal. by apply values_set_same_image.
  - simpl. apply (list_elem_of_fmap_2' entry _ (presence_of socket t2));
      [apply value_in_values_set | reflexivity].
  - unfold JsMap.values, JsMap.size. by rewrite !length_fmap.
Qed.

Lemma online_users_list_is_the_registry_witness :
  nsp main_new = Main
  /\ exists (st' : Server) (online users_list : Emission),
       step main_new (Connect 30 31)
         (default initial (state_after [(main_old, Connect 10 11); (main_bob, Connect 20 21)]))
       = Ok (st', [online; users_list])
       /\ payload users_list
          = VObj [("users",
               VArr [VObj [("id", VStr "u-alice"); ("email", VStr "alice@example.org")];
                     VObj [("id", VStr "u-bob"); ("email", VStr "bob@example.org")]])].
Proof.
  split; [reflexivity|].
  destruct (online_users_list_is_the_registry main_new 30 31
              (default initial
                 (state_after [(main_old, Connect 10 11); (main_bob, Connect 20 21)]))
              eq_refl)
    as (st' & online & users_list & Hstep & _ & _ & Hp & _).
  exists st', online, users_list. split; [exact Hstep|].
  rewrite Hp. vm_compute in Hstep. injection Hstep as <- _ _. reflexivity.
Defined.

(** ** Leaving a namespace *)

Lemma filter_all {A : Type} (P : A -> Prop) `{forall x, Decision (P x)} (l : list A) :
  (forall x, x ∈ l -> P x) -> filter P l = l.
Proof.
  induction l as [|x l IH]; intros Hall; [done|].
  rewrite filter_cons_True by (apply Hall; left).
  rewrite IH; [done|]. intros y Hy. apply Hall. by right.
Qed.

Lemma filter_drops_appended {A : Type} `{EqDecision A} (x : A) (l : list A) :
  x ∉ l -> filter (fun y => y <> x) (l ++ [x]) = l.
Proof.
  intros Hx. rewrite filter_app, filter_cons_False, filter_nil, app_nil_r.
  - apply filter_all. intros y Hy ->. done.
  - intros Hc. by apply Hc.
Qed.

(** The connection and disconnection listeners do not touch the adapter
    of their namespace. *)
Lemma lifecycle_keeps_adapter (socket : Socket) (t1 t2 : Z) (a0 : Adapter) :
  hoare (fun s => adapter (nsp socket) s = a0) (fun _ => True)
        (on_connection socket t1 t2)
  /\ hoare (fun s => adapter (nsp socket) s = a0) (fun _ => True)
           (on_disconnect socket).
Proof.
  unfold on_connection, on_disconnect.
  remember (nsp socket) as ns eqn:Hns.
  split; destruct ns; hoare_handler; try done;
    rewrite ?adapter_with_onlineUsers, ?adapter_with_meetingParticipants; done.
Qed.

Lemma disconnect_step_adapter (socket : Socket) (st st' : Server) (out : list Emission) :
  step socket Disconnect st = Ok (st', out) ->
  conns (adapter (nsp socket) st')
  = filter (fun s => s <> sid socket) (conns (adapter (nsp socket) st))
  /\ rooms (adapter (nsp socket) st')
     = filter (fun m => m.2 <> sid socket) (rooms (adapter (nsp socket) st)).
Proof.
  intros Hstep.
  destruct (step_from _ _ _ _ _ Hstep) as (st1 & Hst1 & a & Hrun).
  assert (Ha : adapter (nsp socket) st' = adapter (nsp socket) st1).
  { by apply (proj2 (lifecycle_keeps_adapter socket 0 0 _) st1 a st' out). }
  rewrite Hst1, adapter_with_adapter in Ha. by rewrite Ha.
Qed.



(** X8. A connection that was not connected, connects and disconnects
    again: the connected set and the rooms of its namespace are exactly
    what they were before. *)
Theorem connect_then_disconnect_restores_adapter
    (socket : Socket) (t1 t2 : Z) (st st1 st2 : Server) (out1 out2 : list Emission) :
  sid socket ∉ conns (adapter (nsp socket) st) ->
  (forall room, (room, sid socket) ∉ rooms (adapter (nsp socket) st)) ->
  step socket (Connect t1 t2) st = Ok (st1, out1) ->
  step socket Disconnect st1 = Ok (st2, out2) ->
  adapter (nsp socket) st2 = adapter (nsp socket) st.
Proof.
  intros Hc Hr H1 H2.
  destruct (step_from _ _ _ _ _ H1) as (s1 & Hs1 & a1 & Hrun1).
  assert (Ha1 : adapter (nsp socket) st1 = adapter (nsp socket) s1).
  { by apply (proj1 (lifecycle_keeps_adapter socket t1 t2 _) s1 a1 st1 out1). }
  rewrite Hs1, adapter_with_adapter in Ha1.
  destruct (disconnect_step_adapter socket st1 st2 out2 H2) as [Hc2 Hr2].
  rewrite Ha1 in Hc2, Hr2. simpl in Hc2, Hr2.
  rewrite decide_False in Hc2 by done.
  rewrite filter_drops_appended in Hc2 by done.
  unfold add_member in Hr2. rewrite decide_False in Hr2 by apply Hr.
  rewrite filter_app, filter_cons_False, filter_nil, app_nil_r in Hr2
    by (simpl; intros Hx; by apply Hx).
  rewrite filter_all in Hr2
    by (intros [k r] Hin Heq; simpl in Heq; subst r; by apply (Hr k)).
  destruct (adapter (nsp socket) st2), (adapter (nsp socket) st). simpl in *.
  by subst.
Qed.

Lemma connect_then_disconnect_restores_adapter_witness :
  (sid main_bob ∉ conns (adapter (nsp main_bob) tasks_idle))
  /\ (forall room, (room, sid main_bob) ∉ rooms (adapter (nsp main_bob) tasks_idle))
  /\ exists st1 st2 out1 out2,
       step main_bob (Connect 5 6) tasks_idle = Ok (st1, out1)
       /\ step main_bob Disconnect st1 = Ok (st2, out2)
       /\ adapter (nsp main_bob) st2 = adapter (nsp main_bob) tasks_idle.
Proof.
  assert (Hc : sid main_bob ∉ conns (adapter (nsp main_bob) tasks_idle))
    by apply not_elem_of_nil.
  assert (Hr : forall room, (room, sid main_bob) ∉ rooms (adapter (nsp main_bob) tasks_idle))
    by (intros room; apply not_elem_of_nil).
  split; [exact Hc|]. split; [exact Hr|].
  eexists _, _, _, _. split; [reflexivity|]. split; [reflexivity|].
  eapply (connect_then_disconnect_restores_adapter main_bob 5 6 tasks_idle);
    [exact Hc | exact Hr | reflexivity | reflexivity].
Defined.

(** ** Rooms of [/signaling] *)







(** ** What a relayed payload says about its sender *)











(** ** Leaving and rejoining a meeting *)

Lemma leave_meeting_run (socket : Socket) (data : value) (st : Server) :
  nsp socket = VideoConference ->
  nullish data = false ->
  step socket (Message "leave-meeting" data) st
  = Ok (with_adapter VideoConference
          {| conns := conns (video_nsp st);
             rooms := filter (fun m => m <> (tpl "meeting:" (prop "meetingId" data),
                                             sid socket))
                             (rooms (video_nsp st)) |} st,
        [{| target := ToRoom (tpl "meeting:" (prop "meetingId" data));
            event := "participant-left";
            payload := VObj [("id", VStr (sid socket));
                             ("user_id", VStr (uid (user socket)))];
            recipients :=
              audience
                {| conns := conns (video_nsp st);
                   rooms := filter (fun m => m <> (tpl "meeting:" (prop "meetingId" data),
                                                   sid socket))
                                   (rooms (video_nsp st)) |}
                (sid socket) (ToRoom (tpl "meeting:" (prop "meetingId" data))) |}]).
Proof.
  intros Hns Hd. unfold step, dispatch. rewrite Hns.
  change (listeners VideoConference "leave-meeting") with [on_leave_meeting].
  unfold run, for_each, on_leave_meeting, socket_leave, socket_to, on_adapter.
  run_handler. rewrite Hns. reflexivity.
Qed.

(** X14. After ['leave-meeting'] the sender is out of the meeting's
    room, and whatever a connection of the namespace does next, nothing
    addressed to that room is delivered to the one who left. *)
Theorem leave_meeting_stops_delivery
    (A B : Socket) (data : value) (i : Input) (st st1 st2 : Server)
    (out1 out2 : list Emission) :
  nsp A = VideoConference ->
  nsp B = VideoConference ->
  nullish data = false ->
  step A (Message "leave-meeting" data) st = Ok (st1, out1) ->
  step B i st1 = Ok (st2, out2) ->
  ((tpl "meeting:" (prop "meetingId" data), sid A) ∉ rooms (video_nsp st1))
  /\ forall e, e ∈ out2 ->
       target e = ToRoom (tpl "meeting:" (prop "meetingId" data)) ->
       sid A ∉ recipients e.
Proof.
  intros HA HB Hd Hleave Hnext.
  rewrite (leave_meeting_run A data st HA Hd) in Hleave. injection Hleave as <- _.
  assert (Hout : (tpl "meeting:" (prop "meetingId" data), sid A)
                 ∉ rooms (video_nsp (with_adapter VideoConference
                     {| conns := conns (video_nsp st);
                        rooms := filter (fun m => m <> (tpl "meeting:" (prop "meetingId" data),
                                                        sid A))
                                        (rooms (video_nsp st)) |} st))).
  { simpl. intros Hin. by apply list_elem_of_filter in Hin as [Hne _]. }
  split; [exact Hout|]. intros e He Ht Hin.
  destruct (others_before_step _ _ _ _ _ Hnext) as (_ & _ & Hto).
  rewrite Forall_forall in Hto. apply (Hto e He) in Hin.
  rewrite Ht, HB in Hin. destruct Hin as (_ & _ & [[=]|Hex]).
  apply Exists_cons in Hex as [Hex|Hex]; [done | by apply Exists_nil in Hex].
Qed.

Lemma leave_meeting_stops_delivery_witness :
  nsp video_A = VideoConference /\ nsp video_B = VideoConference
  /\ nullish in_M1 = false
  /\ exists out1 out2,
       step video_A (Message "leave-meeting" in_M1) both_in_M1 = Ok (A_left_B_stays, out1)
       /\ step video_B (Message "raise-hand" in_M1) A_left_B_stays
          = Ok (A_left_B_stays, out2)
       /\ out2 <> []
       /\ forall e, e ∈ out2 ->
            target e = ToRoom (tpl "meeting:" (prop "meetingId" in_M1)) ->
            sid video_A ∉ recipients e.
Proof.
  split; [reflexivity|]. split; [reflexivity|]. split; [reflexivity|].
  assert (H1 : exists out1,
            step video_A (Message "leave-meeting" in_M1) both_in_M1
            = Ok (A_left_B_stays, out1)) by (eexists; vm_compute; reflexivity).
  assert (H2 : exists out2,
            step video_B (Message "raise-hand" in_M1) A_left_B_stays
            = Ok (A_left_B_stays, out2) /\ out2 <> [])
    by (eexists; split; [vm_compute; reflexivity | discriminate]).
  destruct H1 as [out1 H1]. destruct H2 as [out2 [H2 Hne]].
  exists out1, out2. split; [exact H1|]. split; [exact H2|]. split; [exact Hne|].
  apply (leave_meeting_stops_delivery video_A video_B in_M1 _ both_in_M1
           A_left_B_stays A_left_B_stays out1 out2 eq_refl eq_refl eq_refl H1 H2).
Defined.




(** ** The shape of the store on every reachable state *)

Lemma store_tidy_with_adapter (ns : Namespace) (a : Adapter) (st : Server) :
  store_tidy st -> store_tidy (with_adapter ns a st).
Proof. by destruct ns. Qed.

Lemma set_not_nil {K V : Type} `{EqDecision K} (k : K) (v : V) (m : list (K * V)) :
  JsMap.set k v m <> [].
Proof. destruct m as [|[k' v'] m]; simpl; [done|]. by destruct (decide (k = k')). Qed.

Lemma Forall_delete {K V : Type} `{EqDecision K} (P : K * V -> Prop) (k : K)
    (m : list (K * V)) :
  Forall P m -> Forall P (JsMap.delete k m).
Proof.
  induction 1 as [|[k' v'] m Hx Hm IH]; simpl; [done|].
  destruct (decide (k = k')); [done|]. by apply Forall_cons.
Qed.

Lemma store_tidy_put (meetingId : value) (participants : list (string * Participant))
    (st : Server) :
  Forall (fun entry => entry.2 <> [] /\ Forall (fun kp => id kp.2 = kp.1) entry.2)
         (meetingParticipants st) ->
  participants <> [] ->
  Forall (fun kp => id kp.2 = kp.1) participants ->
  store_tidy (with_meetingParticipants
                (JsMap.set meetingId participants (meetingParticipants st)) st).
Proof. intros Hst Hne Hids. unfold store_tidy. simpl. by apply Forall_set. Qed.

Lemma store_tidy_get (meetingId : value) (participants : list (string * Participant))
    (st : Server) :
  store_tidy st ->
  JsMap.get meetingId (meetingParticipants st) = Some participants ->
  participants <> [] /\ Forall (fun kp => id kp.2 = kp.1) participants.
Proof.
  intros Hst Hget. apply get_Some_elem in Hget.
  unfold store_tidy in Hst. rewrite Forall_forall in Hst. apply (Hst _ Hget).
Qed.

Lemma join_meeting_keeps_store_tidy (socket : Socket) (data : value) :
  hoare store_tidy (fun _ => True) (on_join_meeting socket data).
Proof.
  intros st a st' out Hok. unfold on_join_meeting, socket_join, socket_to,
    socket_emit, put_participants, on_adapter.
  unfold destructure. destruct (nullish data); [by monad|].
  run_handler. simpl.
  set (m := prop "meetingId" data).
  assert (Hok1 := store_tidy_with_adapter (nsp socket)
     {| conns := conns (adapter (nsp socket) st);
        rooms := add_member (tpl "meeting:" m) (sid socket)
                   (rooms (adapter (nsp socket) st)) |} st Hok).
  revert Hok1.
  match goal with |- store_tidy ?s -> _ => set (st1 := s) end.
  intros Hok1.
  destruct (JsMap.has m (meetingParticipants st1)) eqn:Hhas; cbv beta iota.
  - unfold JsMap.has in Hhas.
    destruct (JsMap.get m (meetingParticipants st1)) as [ps|] eqn:Hget; [|done].
    run_handler. intros [= _ <- _]. split; [|by apply Forall_true].
    destruct (store_tidy_get _ _ _ Hok1 Hget) as [_ Hids].
    apply store_tidy_put; [done | apply set_not_nil | by apply Forall_set].
  - simpl. rewrite get_set_eq. run_handler. intros [= _ <- _].
    split; [|by apply Forall_true].
    unfold store_tidy. simpl. rewrite set_set.
    apply Forall_set; [done|]. simpl. split; [done|].
    apply Forall_cons. split; [done | by apply Forall_nil].
Qed.

Lemma peer_connected_keeps_store_tidy (socket : Socket) (data : value) :
  hoare store_tidy (fun _ => True) (on_peer_connected socket data).
Proof.
  intros st a st' out Hok. unfold on_peer_connected, socket_to, put_participants.
  unfold destructure. destruct (nullish data); [by monad|].
  run_handler.
  destruct (JsMap.get (prop "meetingId" data) (meetingParticipants st))
    as [ps|] eqn:Hget.
  - destruct (JsMap.get (sid socket) ps) as [p|] eqn:Hp.
    + run_handler. intros [= _ <- _]. split; [|by apply Forall_true].
      destruct (store_tidy_get _ _ _ Hok Hget) as [_ Hids].
      apply store_tidy_put; [done | apply set_not_nil |].
      apply Forall_set; [done|]. simpl.
      apply get_Some_elem in Hp. rewrite Forall_forall in Hids. apply (Hids _ Hp).
    + run_handler. intros [= _ <- _]. split; [done | by apply Forall_true].
  - run_handler. intros [= _ <- _]. split; [done | by apply Forall_true].
Qed.

Lemma handlers_keep_store_tidy (socket : Socket) (name : string) (data : value) :
  Forall (fun h => h.1 = name -> hoare store_tidy (fun _ => True) (h.2 socket data))
         (handlers (nsp socket)).
Proof.
  destruct (nsp socket) eqn:Hns; each_handler;
    first [ apply join_meeting_keeps_store_tidy
          | apply peer_connected_keeps_store_tidy
          | hoare_handler; try done; by apply store_tidy_with_adapter ].
Qed.

Lemma store_tidy_without_connection c store :
  Forall (fun entry => entry.2 <> [] /\ Forall (fun kp : string * Participant =>
                                                 id kp.2 = kp.1) entry.2) store ->
  Forall (fun entry => entry.2 <> [] /\ Forall (fun kp : string * Participant =>
                                                 id kp.2 = kp.1) entry.2)
         (without_connection c store).
Proof.
  induction 1 as [|[m ps] store [Hne Hids] Hst IH]; simpl; [done|].
  simpl in Hne, Hids.
  destruct (JsMap.has c ps); [destruct (decide _) as [Hz|Hz]|]; [done| |].
  - apply Forall_cons. split; [|done]. simpl. split; [|by apply Forall_delete].
    intros Hnil. apply Hz. unfold JsMap.size. by rewrite Hnil.
  - by apply Forall_cons.
Qed.

Lemma step_keeps_store_tidy (socket : Socket) (i : Input) (st st' : Server)
    (out : list Emission) :
  store_ok st -> store_tidy st -> step socket i st = Ok (st', out) -> store_tidy st'.
Proof.
  intros Hok Htidy Hstep. destruct i as [t1 t2|name data|].
  - unfold step in Hstep.
    eapply (hoare_run store_tidy (fun _ => True)); [| exact Htidy | exact Hstep].
    apply hoare_bind.
    + hoare_handler. by apply store_tidy_with_adapter.
    + intros _. unfold on_connection. destruct (nsp socket); hoare_handler; done.
  - unfold step in Hstep.
    eapply (hoare_run store_tidy (fun _ => True)); [| exact Htidy | exact Hstep].
    apply hoare_dispatch, handlers_keep_store_tidy.
  - destruct (decide (nsp socket = VideoConference)) as [Hns|Hns].
    + destruct Hok as [Hnd Hall].
      destruct (video_disconnect_run socket st Hns Hnd)
        as (st1 & out1 & Hstep1 & Hst1 & _).
      rewrite Hstep in Hstep1. injection Hstep1 as -> _.
      unfold store_tidy. rewrite Hst1. by apply store_tidy_without_connection.
    + unfold step in Hstep.
      eapply (hoare_run store_tidy (fun _ => True)); [| exact Htidy | exact Hstep].
      apply hoare_bind.
      * hoare_handler. by apply store_tidy_with_adapter.
      * intros _. unfold on_disconnect.
        destruct (nsp socket); hoare_handler; done.
Qed.

Lemma reachable_store_tidy (st : Server) : reachable st -> store_tidy st.
Proof.
  induction 1 as [|st st' socket i out Hreach IH _ Hstep].
  - by apply Forall_nil.
  - eapply step_keeps_store_tidy; [by apply reachable_store_ok | exact IH | exact Hstep].
Qed.

Lemma others_are_the_rest (c : string) (ps : list (string * Participant)) :
  NoDup (JsMap.keys ps) ->
  Forall (fun kp => id kp.2 = kp.1) ps ->
  filter (fun p => id p <> c) (JsMap.values ps) = JsMap.values (JsMap.delete c ps).
Proof.
  unfold JsMap.keys, JsMap.values.
  induction ps as [|[k p] ps IH]; csimpl; [done|].
  intros [Hk Hnd]%NoDup_cons [Hid Hids]%Forall_cons. simpl in Hid.
  rewrite filter_cons. destruct (decide (c = k)) as [->|Hne].
  - rewrite decide_False by (intros Hx; by apply Hx).
    apply filter_all. intros q Hq Heq.
    apply list_elem_of_fmap in Hq as ([k' q'] & -> & Hin). simpl in Heq.
    rewrite Forall_forall in Hids. specialize (Hids _ Hin). simpl in Hids.
    apply Hk. apply list_elem_of_fmap. exists (k', q'). split; [simpl; congruence | done].
  - rewrite decide_True by congruence. csimpl. f_equal. by apply IH.
Qed.

(** X16. On every state the server can reach, each meeting of the
    store holds at least one record, no connection has two records in a
    meeting, and each record lies under the id of its own connection; so the
    roster ['get-participants'] computes, the records whose [id] differs
    from the requester's, is the meeting's map without the requester's
    entry. *)
Theorem reachable_store_is_tidy
    (st : Server) (meetingId : value) (participants : list (string * Participant)) :
  reachable st ->
  JsMap.get meetingId (meetingParticipants st) = Some participants ->
  participants <> []
  /\ NoDup (JsMap.keys participants)
  /\ (forall c p, JsMap.get c participants = Some p -> id p = c)
  /\ (forall c, filter (fun p => id p <> c) (JsMap.values participants)
                = JsMap.values (JsMap.delete c participants)).
Proof.
  intros Hreach Hget.
  destruct (store_tidy_get _ _ _ (reachable_store_tidy st Hreach) Hget) as [Hne Hids].
  pose proof (store_ok_get _ _ _ (reachable_store_ok st Hreach) Hget) as Hnd.
  split; [done|]. split; [done|]. split.
  - intros c p Hp. apply get_Some_elem in Hp.
    rewrite Forall_forall in Hids. apply (Hids _ Hp).
  - intros c. by apply others_are_the_rest.
Qed.

Lemma reachable_store_is_tidy_witness :
  reachable A_has_peer
  /\ JsMap.get (VStr "M1") (meetingParticipants A_has_peer)
     = Some [("sA", with_peer_id (VStr "peer-A") (participant_of video_A));
             ("sB", participant_of video_B)]
  /\ filter (fun p => id p <> "sB")
       (JsMap.values [("sA", with_peer_id (VStr "peer-A") (participant_of video_A));
                      ("sB", participant_of video_B)])
     = [with_peer_id (VStr "peer-A") (participant_of video_A)].
Proof.
  assert (Hreach : reachable A_has_peer)
    by reach (both_join_M1 ++ [(video_A, Message "peer-connected" peer_of_A)]).
  assert (Hget : JsMap.get (VStr "M1") (meetingParticipants A_has_peer)
                 = Some [("sA", with_peer_id (VStr "peer-A") (participant_of video_A));
                         ("sB", participant_of video_B)]) by reflexivity.
  split; [exact Hreach|]. split; [exact Hget|].
  destruct (reachable_store_is_tidy A_has_peer (VStr "M1") _ Hreach Hget)
    as (_ & _ & _ & Hrest).
  rewrite (Hrest "sB"). reflexivity.
Defined.

(** ** Peer ids in later rosters *)




(** ** The notices of a disconnection *)

Lemma video_disconnect_notices (socket : Socket)
    (rest : list (value * list (string * Participant))) (st : Server) :
  exists st',
    for_each rest (video_disconnect_entry socket) st
    = Ok (tt, st',
          left_notice socket (adapter (nsp socket) st)
            <$> (filter (fun entry => JsMap.has (sid socket) entry.2 = true) rest).*1)
    /\ adapter (nsp socket) st' = adapter (nsp socket) st.
Proof.
  revert st. induction rest as [|[m ps] rest IH]; intros st.
  - exists st. by split.
  - change (for_each ((m, ps) :: rest) (video_disconnect_entry socket))
      with (video_disconnect_entry socket (m, ps) ;;
            for_each rest (video_disconnect_entry socket)).
    unfold mbind, M_bind. rewrite video_disconnect_entry_run. cbv zeta.
    rewrite filter_cons. cbn [snd].
    destruct (JsMap.has (sid socket) ps) eqn:Hhas.
    + destruct (decide (true = true)); [|done].
      set (s := with_meetingParticipants _ st).
      destruct (IH s) as (st' & Hrun & Had). rewrite Hrun.
      unfold s in *. rewrite adapter_with_meetingParticipants in Had |- *.
      exists st'. by split.
    + destruct (decide (false = true)); [done|].
      destruct (IH st) as (st' & Hrun & Had). rewrite Hrun.
      exists st'. by split.
Qed.

(** X18. The disconnection of a video-conference connection sends one
    ['participant-left'] notice for each meeting of the store that holds a
    record of the connection, in the store's order, and nothing else:
    whether the connection is still in the meeting's room plays no part, so
    a meeting left with ['leave-meeting'] is announced again.  Each notice
    goes to the meeting's room as it stands without the connection. *)
Theorem disconnect_announces_each_recorded_meeting (socket : Socket) (st : Server) :
  nsp socket = VideoConference ->
  exists st',
    step socket Disconnect st
    = Ok (st',
          left_notice socket
            {| conns := filter (fun s => s <> sid socket) (conns (video_nsp st));
               rooms := filter (fun m => m.2 <> sid socket) (rooms (video_nsp st)) |}
            <$> (filter (fun entry => JsMap.has (sid socket) entry.2 = true)
                        (meetingParticipants st)).*1).
Proof.
  intros Hns.
  set (st1 := with_adapter VideoConference
                {| conns := filter (fun s => s <> sid socket) (conns (video_nsp st));
                   rooms := filter (fun m => m.2 <> sid socket) (rooms (video_nsp st)) |}
                st).
  assert (Hdetach : detach socket st = Ok (tt, st1, [])).
  { unfold detach, on_adapter, modify. by rewrite Hns. }
  destruct (video_disconnect_notices socket (meetingParticipants st1) st1)
    as (st' & Hrun & _).
  exists st'. unfold step, run, on_disconnect. rewrite Hns.
  unfold video_disconnect, mbind, M_bind, gets. rewrite Hdetach, Hrun.
  rewrite Hns. reflexivity.
Qed.

Lemma disconnect_announces_each_recorded_meeting_witness :
  nsp video_A = VideoConference
  /\ exists st',
       step video_A Disconnect A_left_B_stays
       = Ok (st', [{| target := ToRoom (VStr "meeting:M1"); event := "participant-left";
                      payload := VObj [("id", VStr "sA"); ("user_id", VStr "u-alice")];
                      recipients := ["sB"] |}]).
Proof.
  split; [reflexivity|].
  destruct (disconnect_announces_each_recorded_meeting video_A A_left_B_stays eq_refl)
    as [st' Hstep].
  exists st'. exact Hstep.
Defined.

(** ** Meeting ids of different types *)



(** ** The authentication middleware *)

Lemma split_space_not_nil (s : string) : split_space s <> [].
Proof.
  induction s as [|c s IH]; simpl; [done|].
  destruct (Ascii.eqb c " "); [done|]. by destruct (split_space s).
Qed.

Lemma split_space_app (a b : string) :
  no_space a = true -> split_space (a +:+ " " +:+ b) = a :: split_space b.
Proof.
  unfold no_space. induction a as [|c a IH]; simpl; [done|].
  intros [Hc Ha]%andb_prop. apply negb_true_iff in Hc. rewrite Hc.
  by rewrite (IH Ha).
Qed.

Lemma split_space_one (a : string) : no_space a = true -> split_space a = [a].
Proof.
  unfold no_space. induction a as [|c a IH]; simpl; [done|].
  intros [Hc Ha]%andb_prop. apply negb_true_iff in Hc. rewrite Hc.
  by rewrite (IH Ha).
Qed.

Lemma append_space_not_empty (a b : string) : a +:+ " " +:+ b <> "".
Proof. by destruct a. Qed.

(** X20. The HTTP middleware lets a request through as a user exactly
    when the socket middleware accepts a connection that presents the
    request's token, and as the same user.  Without the Supabase
    configuration that is the fixed anonymous user when [ALLOW_ANON] is
    ['true'] and nobody otherwise, whatever token is sent; with it,
    [ALLOW_ANON] plays no part and the user is the one Supabase returns,
    without an error, for a token that is not empty. *)
Theorem http_and_socket_accept_alike
    (env : Env) (getUser : string -> GetUser) (authHeader : option string) (u : User) :
  (authenticateToken env getUser authHeader = Next u
   <-> authenticateSocket env getUser (header_token authHeader) = Accept u)
  /\ (authenticateToken env getUser authHeader = Next u
      <-> if hasSupabaseEnv env then
            exists token, header_token authHeader = Some token /\ token <> ""
                          /\ getUser token = Resolved (Some (Some u)) false
          else ALLOW_ANON env = Some "true" /\ u = anonymous).
Proof.
  unfold authenticateToken, authenticateSocket.
  destruct (hasSupabaseEnv env); simpl.
  - destruct (header_token authHeader) as [token|]; simpl.
    + destruct (decide (token = "")) as [->|Hne].
      * split; [done|]. split; [done|]. intros (t & [= <-] & Hne & _). done.
      * assert (Hex : (exists t, Some token = Some t /\ t <> ""
                                  /\ getUser t = Resolved (Some (Some u)) false)
                       <-> getUser token = Resolved (Some (Some u)) false).
        { split; [by intros (t & [= <-] & _ & H) | intros H; by exists token]. }
        rewrite Hex.
        destruct (getUser token) as [|[[u'|]|] [|]]; split; split; congruence.
    + split; [done|]. split; [done|]. by intros (t & [=] & _).
  - destruct (decide (ALLOW_ANON env = Some "true")) as [Ha|Ha].
    + split; [split; intros [= <-]; done|]. split; [by intros [= <-]|].
      by intros [_ ->].
    + split; [done|]. split; [done|]. by intros [? _].
Qed.

Lemma http_and_socket_accept_alike_witness :
  authenticateToken configured knows_alice (Some "Bearer tok-alice") = Next alice
  /\ authenticateSocket configured knows_alice (Some "tok-alice") = Accept alice
  /\ authenticateToken configured knows_alice (Some "Bearer tok-bob") <> Next anonymous.
Proof.
  assert (Hnext : authenticateToken configured knows_alice (Some "Bearer tok-alice")
                  = Next alice) by reflexivity.
  split; [exact Hnext|]. split.
  - exact (proj1 (proj1 (http_and_socket_accept_alike configured knows_alice
                           (Some "Bearer tok-alice") alice)) Hnext).
  - intros Hanon.
    destruct (proj1 (proj2 (http_and_socket_accept_alike configured knows_alice
                              (Some "Bearer tok-bob") anonymous)) Hanon)
      as (token & [= <-] & _ & Hres).
    discriminate Hres.
Defined.

(** X21. The HTTP middleware takes whatever stands between the first
    and the second blank of the [Authorization] header for the token: the
    word before the first blank is not looked at, so any scheme does as well
    as [Bearer], and what follows a second blank is dropped.  A header with
    two blanks after the scheme carries the empty token and is answered
    401. *)
Theorem authorization_scheme_is_not_checked
    (env : Env) (getUser : string -> GetUser) (scheme token rest : string) :
  no_space scheme = true ->
  no_space token = true ->
  header_token (Some (scheme +:+ " " +:+ token)) = Some token
  /\ header_token (Some (scheme +:+ " " +:+ token +:+ " " +:+ rest)) = Some token
  /\ authenticateToken env getUser (Some (scheme +:+ " " +:+ token))
     = authenticateToken env getUser (Some ("Bearer " +:+ token))
  /\ (hasSupabaseEnv env = true ->
      authenticateToken env getUser (Some (scheme +:+ "  " +:+ token))
      = Respond 401 "Access token required").
Proof.
  intros Hs Ht.
  assert (H1 : forall s, no_space s = true ->
            header_token (Some (s +:+ " " +:+ token)) = Some token).
  { intros s Hsp. unfold header_token.
    rewrite decide_False by apply append_space_not_empty.
    by rewrite split_space_app, split_space_one. }
  split; [by apply H1|]. split; [|split].
  - unfold header_token. rewrite decide_False by apply append_space_not_empty.
    by rewrite !split_space_app.
  - unfold authenticateToken. rewrite (H1 scheme Hs).
    change ("Bearer " +:+ token) with ("Bearer" +:+ " " +:+ token).
    by rewrite (H1 "Bearer").
  - intros Henv. unfold authenticateToken. rewrite Henv. simpl.
    change (scheme +:+ "  " +:+ token) with (scheme +:+ " " +:+ "" +:+ " " +:+ token).
    unfold header_token. rewrite decide_False by apply append_space_not_empty.
    by rewrite !split_space_app.
Qed.

Lemma authorization_scheme_is_not_checked_witness :
  no_space "Basic" = true
  /\ no_space "tok-alice" = true
  /\ authenticateToken configured knows_alice (Some "Basic tok-alice") = Next alice
  /\ authenticateToken configured knows_alice (Some "Basic  tok-alice")
     = Respond 401 "Access token required".
Proof.
  split; [reflexivity|]. split; [reflexivity|].
  destruct (authorization_scheme_is_not_checked configured knows_alice
              "Basic" "tok-alice" "" eq_refl eq_refl) as (_ & _ & Hsame & Hdouble).
  split; [exact (eq_trans Hsame eq_refl) | exact (Hdouble eq_refl)].
Defined.

(** ** Documents *)


